(** * Grapic: the face-match pipeline

  A shallow embedding of the matching and ingestion core of the Grapic
  backend:

  - [app/services/face_service.py]: [detect_and_encode], [encode_selfie],
    [find_matches];
  - [app/routes/progress.py]: the per-event progress counters;
  - [app/services/worker.py] and [app/tasks.py]: the two executors of
    [process_photo];
  - [app/routes/photos.py]: the counter updates of [api_upload_photos];
  - [app/tasks_auto_retry.py]: [auto_retry_failed_photos].

  Numbers.  Python floats and numpy float64 values are idealised as real
  numbers: rounding error, overflow and NaN inputs are outside the model.
  The one way the matcher could itself create a NaN or an infinity, a
  division by zero, is tracked as an explicit outcome.  Real arithmetic
  does not compute, so the runs of the matcher on given vectors are
  lemmas.  The progress counters are Python integers, [Z].

  Outside world.  The face model, the image store and the broker are
  inputs of the functions that use them.  Reads of the photo table and
  writes of a photo's status are taken to succeed. *)

From Stdlib Require Import Reals Lra Lia ZArith List Sorting.Sorted.
From stdpp Require Import base option list gmap strings.

Local Open Scope R_scope.

(* ===================================================================== *)
(** * Definitions *)
(* ===================================================================== *)

(** ** numpy and builtins used by the matcher *)

Module Np.

(** A one-dimensional array of float64. *)
Definition ndarray := list R.

(** What a numeric routine can do besides returning: [np.dot] raises
    [ValueError] on arrays of different length; a zero divisor makes numpy
    produce nan or inf. *)
Inductive outcome (A : Type) : Type :=
| Ok (a : A)
| ValueError
| DivisionByZero.
Arguments Ok {A} a.
Arguments ValueError {A}.
Arguments DivisionByZero {A}.

Definition bind {A B} (k : A -> outcome B) (m : outcome A) : outcome B :=
  match m with
  | Ok a => k a
  | ValueError => ValueError
  | DivisionByZero => DivisionByZero
  end.

#[export] Instance outcome_ret : MRet outcome := @Ok.
#[export] Instance outcome_bind : MBind outcome := @bind.

(** [np.dot(a, b)] on one-dimensional arrays. *)
Fixpoint dot (a b : ndarray) : outcome R :=
  match a, b with
  | [], [] => Ok 0
  | x :: a', y :: b' => s ← dot a' b'; Ok (x * y + s)
  | _, _ => ValueError
  end.

Fixpoint sum_squares (a : ndarray) : R :=
  match a with
  | [] => 0
  | x :: a' => x * x + sum_squares a'
  end.

(** [np.linalg.norm(a)]: the L2 norm. *)
Definition linalg_norm (a : ndarray) : R := sqrt (sum_squares a).

(** [x / y] on float64 scalars. *)
Definition divide (x y : R) : outcome R :=
  if Req_dec_T y 0 then DivisionByZero else Ok (x / y).

(** [floor]: the largest integer not above [x]. *)
Definition floor (x : R) : Z := (up x - 1)%Z.

(** Round half to even, as Python's [round] does. *)
Definition round_half_even (x : R) : Z :=
  let f := floor x in
  let d := x - IZR f in
  if Rlt_dec d (1 / 2) then f
  else if Rlt_dec (1 / 2) d then (f + 1)%Z
  else if Z.even f then f else (f + 1)%Z.

(** [round(x, 4)]. *)
Definition round4 (x : R) : R := IZR (round_half_even (x * 10000)) / 10000.

End Np.

Import Np.

(** ** Calls that return or raise *)

Inductive py_result (A : Type) : Type :=
| Returned (a : A)
| Raised (exc : string).
Arguments Returned {A} a.
Arguments Raised {A} exc.

(** ** app/services/face_service.py *)

Module FaceService.

(** One element of what [DeepFace.represent] returns: a dict whose keys
    ["embedding"] and ["facial_area"] may be missing. *)
Record represent_result : Type := RepresentResult {
  rep_embedding : option Np.ndarray;
  rep_facial_area : option (gmap string Z)
}.

(** A detected face: [{"embedding": [...], "location": [x, y, w, h]}]. *)
Record face : Type := Face {
  face_embedding : Np.ndarray;
  location : list Z
}.

(** Lines 29-42: the body of the loop over the results. *)
Definition encode_result (result : represent_result) : list face :=
  let embedding := default [] (rep_embedding result) in
  let face_area := default ∅ (rep_facial_area result) in
  if bool_decide (embedding ≠ []) && bool_decide (0 < length embedding)%nat
  then [Face embedding
          [default 0%Z (face_area !! "x"); default 0%Z (face_area !! "y");
           default 0%Z (face_area !! "w"); default 0%Z (face_area !! "h")]]
  else [].

Section WithDeepFace.
(** [DeepFace.represent(img_path=..., model_name="Facenet",
    detector_backend="opencv", enforce_detection=False)]: the external
    model, which returns its results or raises. *)
Variable DeepFace_represent : string -> py_result (list represent_result).

(** Lines 12-49.  The [except Exception] clause turns every failure of the
    model into the empty list. *)
Definition detect_and_encode (image_path : string) : py_result (list face) :=
  match DeepFace_represent image_path with
  | Returned results => Returned (concat (map encode_result results))
  | Raised _ => Returned []
  end.

(** Lines 52-61.  [None] when no face is in the list. *)
Definition encode_selfie (image_path : string)
    : py_result (option Np.ndarray) :=
  match detect_and_encode image_path with
  | Returned faces =>
      match faces with
      | [] => Returned None
      | f :: _ => Returned (Some (face_embedding f))
      end
  | Raised e => Raised e
  end.
End WithDeepFace.

(** A stored row: [{"embedding": [...], "photo_id": ...}]. *)
Record stored_embedding : Type := StoredEmbedding {
  embedding : Np.ndarray;
  photo_id : string
}.

(** A result: [{"photo_id": ..., "similarity": ...}]. *)
Record match_result : Type := MatchResult {
  match_photo_id : string;
  similarity : R
}.

(** Line 92: [np.dot(selfie_vec, stored_vec) / (selfie_norm * stored_norm)]. *)
Definition cosine_sim (selfie_vec : Np.ndarray) (selfie_norm : R)
    (stored_vec : Np.ndarray) (stored_norm : R) : Np.outcome R :=
  d ← Np.dot selfie_vec stored_vec;
  Np.divide d (selfie_norm * stored_norm).

(** One iteration of the loop of lines 84-99, on the loop state
    [(matches, seen_photos)]. *)
Definition match_step (selfie_vec : Np.ndarray) (selfie_norm threshold : R)
    (st : list match_result * gset string) (stored : stored_embedding)
    : Np.outcome (list match_result * gset string) :=
  let '(matches, seen_photos) := st in
  let stored_vec := embedding stored in
  let stored_norm := Np.linalg_norm stored_vec in
  if Req_dec_T stored_norm 0 then Np.Ok st
  else
    c ← cosine_sim selfie_vec selfie_norm stored_vec stored_norm;
    if Rle_dec threshold c then
      if decide (photo_id stored ∈ seen_photos) then Np.Ok st
      else Np.Ok (matches ++ [MatchResult (photo_id stored) (Np.round4 c)],
                  {[ photo_id stored ]} ∪ seen_photos)
    else Np.Ok st.

Fixpoint match_loop (selfie_vec : Np.ndarray) (selfie_norm threshold : R)
    (stored_embeddings : list stored_embedding)
    (st : list match_result * gset string)
    : Np.outcome (list match_result * gset string) :=
  match stored_embeddings with
  | [] => Np.Ok st
  | stored :: rest =>
      st' ← match_step selfie_vec selfie_norm threshold st stored;
      match_loop selfie_vec selfie_norm threshold rest st'
  end.

(** [list.sort(key=similarity, reverse=True)]: a stable sort, best first.
    [sort_insert m l] puts [m] in front of the first element that is not
    strictly better, so equal keys keep their order. *)
Fixpoint sort_insert (m : match_result) (l : list match_result)
    : list match_result :=
  match l with
  | [] => [m]
  | m' :: l' =>
      if Rlt_dec (similarity m) (similarity m') then m' :: sort_insert m l'
      else m :: m' :: l'
  end.

Definition sort_by_similarity_desc (l : list match_result)
    : list match_result :=
  foldr sort_insert [] l.

Section WithConfig.
(** [app.config.SIMILARITY_THRESHOLD], read from the environment
    (default 0.40). *)
Variable SIMILARITY_THRESHOLD : R.

(** Lines 64-103.  [threshold = None] selects the configured default. *)
Definition find_matches (selfie_embedding : Np.ndarray)
    (stored_embeddings : list stored_embedding) (threshold : option R)
    : Np.outcome (list match_result) :=
  let threshold := default SIMILARITY_THRESHOLD threshold in
  let selfie_vec := selfie_embedding in
  let selfie_norm := Np.linalg_norm selfie_vec in
  if Req_dec_T selfie_norm 0 then Np.Ok []
  else
    st ← match_loop selfie_vec selfie_norm threshold stored_embeddings
           ([], ∅);
    Np.Ok (sort_by_similarity_desc st.1).
End WithConfig.

End FaceService.

(** ** Vocabulary for the properties of the matcher *)

Section MatcherVocabulary.

Import FaceService.

(** Best first: each result is at least as similar as those after it. *)
Definition best_first (a b : match_result) : Prop :=
  similarity b <= similarity a.

(** The loop state is coherent when [seen_photos] is the set of the photo
    ids of [matches], none of them twice. *)
Definition coherent (st : list match_result * gset string) : Prop :=
  NoDup (map match_photo_id st.1) /\
  forall id, id ∈ st.2 <-> id ∈ map match_photo_id st.1.

(** [m] reports the rounded cosine of a stored embedding that passes the
    threshold, unrounded. *)
Definition admitted (v : Np.ndarray) (th : R) (l : list stored_embedding)
    (m : match_result) : Prop :=
  exists s c,
    s ∈ l /\ photo_id s = match_photo_id m /\
    Np.linalg_norm (embedding s) <> 0 /\
    cosine_sim v (Np.linalg_norm v) (embedding s) (Np.linalg_norm (embedding s))
      = Np.Ok c /\
    th <= c /\ similarity m = Np.round4 c.

End MatcherVocabulary.

(** ** app/routes/progress.py *)

Module Progress.

(** The inner dict [{uploaded, processing, completed, failed, total}]. *)
Record counters : Type := Counters {
  uploaded : Z;
  processing : Z;
  completed : Z;
  failed : Z;
  total : Z
}.

(** The [status] argument of [update_progress]. *)
Inductive progress_status : Type :=
| Uploaded
| Processing
| Completed
| Failed.

(** The factory of the [defaultdict]. *)
Definition zero : counters := Counters 0 0 0 0 0.

(** [d[status] += count]. *)
Definition add_to (status : progress_status) (count : Z) (d : counters)
    : counters :=
  match status with
  | Uploaded => Counters (uploaded d + count) (processing d) (completed d) (failed d) (total d)
  | Processing => Counters (uploaded d) (processing d + count) (completed d) (failed d) (total d)
  | Completed => Counters (uploaded d) (processing d) (completed d + count) (failed d) (total d)
  | Failed => Counters (uploaded d) (processing d) (completed d) (failed d + count) (total d)
  end.

(** [_progress_store[event_id]] on the [defaultdict]. *)
Definition entry (store : gmap string counters) (event_id : string)
    : counters :=
  default zero (store !! event_id).

(** Lines 32-50, without the notification of the connected clients, which
    reads the store and does not write it. *)
Definition update_progress (event_id : string) (status : progress_status)
    (count : Z) (store : gmap string counters) : gmap string counters :=
  <[event_id := add_to status count (entry store event_id)]> store.

(** Lines 53-61. *)
Definition get_progress (event_id : string) (store : gmap string counters)
    : counters :=
  default zero (store !! event_id).

(** Lines 64-72. *)
Definition reset_progress (event_id : string) (store : gmap string counters)
    : gmap string counters :=
  <[event_id := zero]> store.

(** [_progress_store[event_id]["total"] = n] (photos.py, line 114). *)
Definition set_total (event_id : string) (n : Z)
    (store : gmap string counters) : gmap string counters :=
  let d := entry store event_id in
  <[event_id := Counters (uploaded d) (processing d) (completed d) (failed d) n]> store.

End Progress.

(** ** The photo table, as the pipeline uses it (app/database_*.py) *)

Module Database.

(** The values of [photos.status]; [InProcessing] is 'processing'. *)
Inductive photo_status : Type :=
| Pending
| InProcessing
| Done
| Error.

#[global] Instance photo_status_eq_dec : EqDecision photo_status.
Proof. solve_decision. Defined.

(** A row of [photos].  [retry_count] is a key the row may lack
    ([photo.get("retry_count", 0)]). *)
Record photo : Type := Photo {
  event_id : string;
  filename : string;
  status : photo_status;
  face_count : Z;
  processing_time_ms : option Z;
  retry_count : option nat
}.

(** A row of [face_embeddings]. *)
Record embedding_row : Type := EmbeddingRow {
  row_photo_id : string;
  row_event_id : string;
  row_embedding : Np.ndarray;
  row_location : list Z
}.

(** The tables.  [status_writes] is the history of the values written to
    the column [photos.status], oldest first: it records, it is never
    read. *)
Record database : Type := Db {
  photos : gmap string photo;
  face_embeddings : list embedding_row;
  processed_count : gmap string Z;
  status_writes : list (string * photo_status)
}.

Definition get_photo (photo_id : string) (db : database) : option photo :=
  photos db !! photo_id.

(** [create_photo]: a new row, [status = 'pending'], [face_count = 0]. *)
Definition create_photo (photo_id event_id filename : string) (db : database)
    : database :=
  Db (<[photo_id := Photo event_id filename Pending 0 None None]> (photos db))
     (face_embeddings db) (processed_count db) (status_writes db).

(** [update_photo_status(photo_id, status, face_count=0,
    processing_time_ms=None)]: an UPDATE of the row with that id, and the
    event's [processed_count] incremented when the status is done.  A
    missing [processing_time_ms] keeps the stored one (SQLite, Supabase). *)
Definition update_photo_status (photo_id : string) (st : photo_status)
    (fc : Z) (ms : option Z) (db : database) : database :=
  match photos db !! photo_id with
  | None => db
  | Some p =>
      let ms' := match ms with Some _ => ms | None => processing_time_ms p end in
      let p' := Photo (event_id p) (filename p) st fc ms' (retry_count p) in
      let pc := if decide (st = Done)
                then <[event_id p := (default 0%Z (processed_count db !! event_id p) + 1)%Z]>
                       (processed_count db)
                else processed_count db in
      Db (<[photo_id := p']> (photos db)) (face_embeddings db) pc
         (status_writes db ++ [(photo_id, st)])
  end.

Definition save_face_embedding (photo_id event_id : string)
    (embedding : Np.ndarray) (face_location : list Z) (db : database)
    : database :=
  Db (photos db)
     (face_embeddings db ++ [EmbeddingRow photo_id event_id embedding face_location])
     (processed_count db) (status_writes db).

(** [get_photos_for_event]: the rows of the event, with their ids. *)
Definition get_photos_for_event (eid : string) (db : database)
    : list (string * photo) :=
  filter (fun r => event_id r.2 = eid) (map_to_list (photos db)).

End Database.

(** ** The state the pipeline works on, and what is outside it *)

Record world : Type := World {
  db : Database.database;
  progress_store : gmap string Progress.counters
}.

(** What one run of [process_photo] meets outside the program. *)
Record job_env : Type := JobEnv {
  (** [resolve_image_for_processing]: [(image_path, should_cleanup)], or an
      exception (the download from the object store). *)
  resolve_image : py_result (string * bool);
  (** [Path(image_path).exists()] *)
  path_exists : bool;
  DeepFace_represent : string -> py_result (list FaceService.represent_result);
  (** whether the [n]-th [save_face_embedding] of the run succeeds *)
  save_ok : nat -> bool;
  (** the time measured around the extraction *)
  elapsed_ms : Z
}.

Definition set_db (w : world) (d : Database.database) : world :=
  World d (progress_store w).

Definition progress (event_id : string) (s : Progress.progress_status)
    (w : world) : world :=
  World (db w) (Progress.update_progress event_id s 1 (progress_store w)).

(** The loop over the faces (worker.py lines 61-67, tasks.py lines 74-80):
    the rows written before a failing write stay. *)
Fixpoint save_faces (save_ok : nat -> bool) (n : nat)
    (photo_id event_id : string) (faces : list FaceService.face)
    (d : Database.database) : Database.database * bool :=
  match faces with
  | [] => (d, true)
  | f :: rest =>
      if save_ok n
      then save_faces save_ok (S n) photo_id event_id rest
             (Database.save_face_embedding photo_id event_id
                (FaceService.face_embedding f) (FaceService.location f) d)
      else (d, false)
  end.

(** The [except Exception] clause shared by both executors: the photo is
    marked error and the failure is counted. *)
Definition mark_failed (photo_id event_id : string) (w : world) : world :=
  progress event_id Progress.Failed
    (set_db w (Database.update_photo_status photo_id Database.Error 0 None (db w))).

(** ** app/services/worker.py: the in-process worker pool *)

Module Worker.

(** Lines 34-92. *)
Definition process_photo (photo_id event_id : string) (env : job_env)
    (w : world) : world :=
  match Database.get_photo photo_id (db w) with
  | None => w
  | Some photo =>
      let w := progress event_id Progress.Processing w in
      match resolve_image env with
      | Raised _ => mark_failed photo_id event_id w
      | Returned (image_path, should_cleanup) =>
          if negb (path_exists env) then
            progress event_id Progress.Failed
              (set_db w (Database.update_photo_status photo_id Database.Error 0 None (db w)))
          else
            match FaceService.detect_and_encode (DeepFace_represent env) image_path with
            | Raised _ => mark_failed photo_id event_id w
            | Returned faces =>
                let '(d, saved) := save_faces (save_ok env) 0 photo_id event_id faces (db w) in
                let w := set_db w d in
                if saved then
                  progress event_id Progress.Completed
                    (set_db w (Database.update_photo_status photo_id Database.Done
                                 (Z.of_nat (length faces)) (Some (elapsed_ms env)) (db w)))
                else mark_failed photo_id event_id w
            end
      end
  end.

End Worker.

(** ** app/tasks.py: the Celery task *)

Module Tasks.

(** The dict the task returns. *)
Inductive task_return : Type :=
| ReturnError (message : string)
| ReturnSuccess (photo_id : string) (face_count : Z) (processing_time_ms : Z).

(** Lines 41-105: the task body.  Every exception is caught inside it, so
    the body always returns a dict. *)
Definition process_photo (photo_id event_id : string) (env : job_env)
    (w : world) : task_return * world :=
  match Database.get_photo photo_id (db w) with
  | None => (ReturnError "Photo not found", w)
  | Some photo =>
      let w := progress event_id Progress.Processing w in
      match resolve_image env with
      | Raised e => (ReturnError e, mark_failed photo_id event_id w)
      | Returned (image_path, should_cleanup) =>
          if negb (path_exists env) then
            (ReturnError "Image file not found",
             progress event_id Progress.Failed
               (set_db w (Database.update_photo_status photo_id Database.Error 0 None (db w))))
          else
            match FaceService.detect_and_encode (DeepFace_represent env) image_path with
            | Raised e => (ReturnError e, mark_failed photo_id event_id w)
            | Returned faces =>
                let '(d, saved) := save_faces (save_ok env) 0 photo_id event_id faces (db w) in
                let w := set_db w d in
                if saved then
                  (ReturnSuccess photo_id (Z.of_nat (length faces)) (elapsed_ms env),
                   set_db w (Database.update_photo_status photo_id Database.Done
                               (Z.of_nat (length faces)) (Some (elapsed_ms env)) (db w)))
                else (ReturnError "save_face_embedding failed", mark_failed photo_id event_id w)
            end
      end
  end.

(** [args[i] if len(args) > i else None], [None] and the empty string both
    being false. *)
Definition arg (i : nat) (args : list string) : option string :=
  match args !! i with
  | Some s => if decide (s = "") then None else Some s
  | None => None
  end.

(** Lines 20-24: [CallbackTask.on_success], which Celery calls when the
    body returns. *)
Definition on_success (retval : task_return) (args : list string) (w : world)
    : world :=
  match arg 1 args with
  | Some event_id => progress event_id Progress.Completed w
  | None => w
  end.

(** Lines 26-37: [CallbackTask.on_failure], which Celery calls when the
    body raises. *)
Definition on_failure (args : list string) (w : world) : world :=
  let w := match arg 0 args with
           | Some photo_id =>
               set_db w (Database.update_photo_status photo_id Database.Error 0 None (db w))
           | None => w
           end in
  match arg 1 args with
  | Some event_id => progress event_id Progress.Failed w
  | None => w
  end.

(** One task [process_photo.apply_async(args=[photo_id, event_id])] run by
    a Celery worker: the body, then the callback for its outcome. *)
Definition run_task (photo_id event_id : string) (env : job_env) (w : world)
    : task_return * world :=
  let '(retval, w') := process_photo photo_id event_id env w in
  (retval, on_success retval [photo_id; event_id] w').

End Tasks.

(** ** app/services/task_queue.py and app/routes/photos.py *)

Module Photos.

(** [submit_photo] hands the job to Celery when [USE_REDIS], else to the
    worker pool. *)
Inductive executor : Type :=
| ThreadPool
| Celery.

Definition run_job (ex : executor) (photo_id event_id : string)
    (env : job_env) (w : world) : world :=
  match ex with
  | ThreadPool => Worker.process_photo photo_id event_id env w
  | Celery => (Tasks.run_task photo_id event_id env w).2
  end.

(** The jobs of a batch all finish, in the order [order], each in its own
    environment. *)
Fixpoint run_jobs (ex : executor) (event_id : string)
    (env_of : string -> job_env) (order : list string) (w : world) : world :=
  match order with
  | [] => w
  | photo_id :: rest =>
      run_jobs ex event_id env_of rest
        (run_job ex photo_id event_id (env_of photo_id) w)
  end.

(** An image of the request, after the enumeration of the ZIP archives:
    whether [validate_image] accepts it, and the file name and the id that
    [save_image] and [create_photo] give it. *)
Record upload_item : Type := UploadItem {
  item_valid : bool;
  item_filename : string;
  item_photo_id : string
}.

Section WithLimit.
Variable FREE_TIER_PHOTO_LIMIT : Z.

(** Lines 72-109: the loop, on (world, uploaded_photos, limit_reached); a
    photo is created, submitted and counted as uploaded. *)
Definition upload_step (event_id : string) (photo_count : Z)
    (st : world * list string * bool) (it : upload_item)
    : world * list string * bool :=
  let '(w, uploaded_photos, limit_reached) := st in
  if bool_decide (FREE_TIER_PHOTO_LIMIT <= photo_count + Z.of_nat (length uploaded_photos))%Z
  then (w, uploaded_photos, true)
  else if item_valid it then
    (progress event_id Progress.Uploaded
       (set_db w (Database.create_photo (item_photo_id it) event_id (item_filename it) (db w))),
     uploaded_photos ++ [item_photo_id it], limit_reached)
  else st.

(** Lines 50-122.  The result is the ids of the photos created, which are
    also the jobs submitted, or the HTTP error. *)
Definition api_upload_photos (event_id : string) (photo_count : Z)
    (items : list upload_item) (w : world) : py_result (list string) * world :=
  if bool_decide (FREE_TIER_PHOTO_LIMIT <= photo_count)%Z
  then (Raised "402", w)
  else
    let w := World (db w) (Progress.reset_progress event_id (progress_store w)) in
    let '(w, uploaded_photos, limit_reached) :=
      foldl (upload_step event_id photo_count) (w, [], false) items in
    let w := match uploaded_photos with
             | [] => w
             | _ => World (db w)
                      (Progress.set_total event_id (Z.of_nat (length uploaded_photos))
                         (progress_store w))
             end in
    if limit_reached && bool_decide (uploaded_photos = [])
    then (Raised "402", w)
    else (Returned uploaded_photos, w).
End WithLimit.

End Photos.

(** ** app/tasks_auto_retry.py *)

Module AutoRetry.

Definition MAX_RETRIES : nat := 3.

Definition RETRY_DELAYS : list Z := [300; 900; 3600]%Z.

(** A job handed to the broker by [process_photo.apply_async]. *)
Record scheduled_task : Type := ScheduledTask {
  task_photo_id : string;
  task_event_id : string;
  countdown : Z
}.

(** What a sweep meets outside the program: whether the broker accepts the
    task of a photo, and whether the UPDATE of its [retry_count] succeeds. *)
Record retry_env : Type := RetryEnv {
  apply_async_ok : string -> bool;
  update_ok : string -> bool
}.

(** The loop state: the photo table, the broker's queue, [retried] and
    [skipped]. *)
Record sweep : Type := Sweep {
  table : Database.database;
  broker : list scheduled_task;
  retried : list scheduled_task;
  skipped : list string
}.

Definition set_retry_count (photo_id : string) (n : nat)
    (d : Database.database) : Database.database :=
  match Database.photos d !! photo_id with
  | None => d
  | Some p =>
      Database.Db
        (<[photo_id := Database.Photo (Database.event_id p) (Database.filename p)
                         (Database.status p) (Database.face_count p)
                         (Database.processing_time_ms p) (Some n)]> (Database.photos d))
        (Database.face_embeddings d) (Database.processed_count d)
        (Database.status_writes d)
  end.

(** Lines 42-81: one failed photo. *)
Definition retry_step (event_id : string) (env : retry_env) (s : sweep)
    (row : string * Database.photo) : sweep :=
  let '(id, photo) := row in
  let retry_count := default 0%nat (Database.retry_count photo) in
  if bool_decide (MAX_RETRIES <= retry_count)%nat then
    Sweep (table s) (broker s) (retried s) (skipped s ++ [id])
  else
    let delay := nth (Nat.min retry_count (length RETRY_DELAYS - 1)) RETRY_DELAYS 0%Z in
    if apply_async_ok env id then
      let t := ScheduledTask id event_id delay in
      let d := if update_ok env id
               then set_retry_count id (retry_count + 1) (table s)
               else table s in
      Sweep d (broker s ++ [t]) (retried s ++ [t]) (skipped s)
    else s.

(** Lines 20-91. *)
Definition auto_retry_failed_photos (event_id : string) (env : retry_env)
    (d : Database.database) (queue : list scheduled_task) : sweep :=
  let photos := Database.get_photos_for_event event_id d in
  let failed_photos :=
    filter (fun r => Database.status r.2 = Database.Error) photos in
  foldl (retry_step event_id env) (Sweep d queue [] []) failed_photos.

End AutoRetry.

(** ** app/services/face_service.py: the vector helpers *)

Module Vectors.




(** A row of what the SQL function [find_similar_faces] returns; either key
    may be missing from the dict. *)
Record rpc_row : Type := RpcRow {
  rpc_photo_id : option string;
  rpc_similarity : option R
}.

(** Lines 151-158: one row, on [(matches, seen_photos)]. *)
Definition vector_step (st : list FaceService.match_result * gset string)
    (row : rpc_row) : list FaceService.match_result * gset string :=
  let '(matches, seen_photos) := st in
  match rpc_photo_id row with
  | Some photo_id =>
      if bool_decide (photo_id ≠ "") && bool_decide (photo_id ∉ seen_photos)
      then (matches ++ [FaceService.MatchResult photo_id
                          (Np.round4 (default 0 (rpc_similarity row)))],
            {[ photo_id ]} ∪ seen_photos)
      else st
  | None => st
  end.

(** Lines 106-167.  [rpc] is the outcome of the call of [find_similar_faces]
    through Supabase and [stored] what [get_embeddings_for_event] gives to
    the fallback.  The result is the list, or the outcome of the fallback
    [find_matches], or the [RuntimeError]. *)
Definition find_matches_vector (USE_SUPABASE : bool)
    (SIMILARITY_THRESHOLD : R) (rpc : py_result (list rpc_row))
    (stored : list FaceService.stored_embedding)
    (selfie_embedding : Np.ndarray) (threshold : option R)
    : py_result (Np.outcome (list FaceService.match_result)) :=
  if negb USE_SUPABASE then
    Raised "find_matches_vector requires Supabase with pgvector. Use find_matches() instead."
  else
    let threshold := default SIMILARITY_THRESHOLD threshold in
    match rpc with
    | Returned data => Returned (Np.Ok (foldl vector_step ([], ∅) data).1)
    | Raised _ =>
        Returned (FaceService.find_matches SIMILARITY_THRESHOLD selfie_embedding
                    stored (Some threshold))
    end.

End Vectors.

(** ** app/services/worker.py and app/services/task_queue.py: submission *)

Module TaskQueue.

(** The two executors: whether the pool exists ([_executor] is not [None]),
    the jobs handed to the pool, and the jobs handed to the Celery broker. *)
Record executors : Type := Executors {
  pool_started : bool;
  pool_jobs : list (string * string);
  celery_jobs : list (string * string)
}.

(** worker.py, lines 18-22. *)
Definition start_worker (q : executors) : executors :=
  Executors true (pool_jobs q) (celery_jobs q).

(** worker.py, lines 25-31: the pool is let go without waiting; what it
    was given still runs. *)
Definition stop_worker (q : executors) : executors :=
  Executors false (pool_jobs q) (celery_jobs q).

(** worker.py, lines 95-100. *)
Definition pool_submit_photo (photo_id event_id : string) (q : executors)
    : py_result unit * executors :=
  if pool_started q then
    (Returned (), Executors true (pool_jobs q ++ [(photo_id, event_id)]) (celery_jobs q))
  else (Raised "Worker not initialized. Call start_worker() first.", q).

(** task_queue.py, lines 15-44.  [broker] is what [apply_async] does: the
    id of the task, or an exception. *)
Definition submit_photo (USE_REDIS : bool) (broker : py_result string)
    (photo_id event_id : string) (q : executors)
    : py_result (option string) * executors :=
  let fallback :=
    match pool_submit_photo photo_id event_id q with
    | (Returned _, q') => (Returned None, q')
    | (Raised e, q') => (Raised e, q')
    end in
  if USE_REDIS then
    match broker with
    | Returned task_id =>
        (Returned (Some task_id),
         Executors (pool_started q) (pool_jobs q)
           (celery_jobs q ++ [(photo_id, event_id)]))
    | Raised _ => fallback
    end
  else fallback.

End TaskQueue.

(** ** app/tasks.py: the retry on demand *)

Module ManualRetry.

(** [l[:limit]]: the first [limit] elements, or all but the last [-limit]
    when [limit] is negative. *)
Definition slice_to {A : Type} (l : list A) (limit : Z) : list A :=
  if bool_decide (0 <= limit)%Z then take (Z.to_nat limit) l
  else take (length l - Z.to_nat (- limit)) l.

(** The loop of lines 154-159: a task per photo, until the broker raises. *)
Fixpoint schedule_all (apply_async_ok : string -> bool) (event_id : string)
    (rows : list (string * Database.photo)) (queue : list (string * string))
    : py_result nat * list (string * string) :=
  match rows with
  | [] => (Returned 0%nat, queue)
  | (id, _) :: rest =>
      if apply_async_ok id then
        match schedule_all apply_async_ok event_id rest (queue ++ [(id, event_id)]) with
        | (Returned n, queue') => (Returned (S n), queue')
        | (Raised e, queue') => (Raised e, queue')
        end
      else (Raised "apply_async failed", queue)
  end.

(** Lines 137-165.  The result is [retried_count] and the broker's queue. *)
Definition retry_failed_photos (event_id : string) (limit : Z)
    (apply_async_ok : string -> bool) (d : Database.database)
    (queue : list (string * string)) : py_result nat * list (string * string) :=
  let photos := Database.get_photos_for_event event_id d in
  let failed_photos :=
    slice_to (filter (fun r => Database.status r.2 = Database.Error) photos) limit in
  schedule_all apply_async_ok event_id failed_photos queue.

End ManualRetry.

(** ** Sweeps of the automatic retry, one after the other *)

Module Schedule.

(** [n] runs of [auto_retry_failed_photos] on the same event, nothing else
    writing the photo table in between: each photo in error is still in
    error at the next run. *)
Fixpoint sweeps (n : nat) (event_id : string) (env : AutoRetry.retry_env)
    (d : Database.database) (queue : list AutoRetry.scheduled_task)
    : Database.database * list AutoRetry.scheduled_task :=
  match n with
  | O => (d, queue)
  | S n' =>
      let s := AutoRetry.auto_retry_failed_photos event_id env d queue in
      sweeps n' event_id env (AutoRetry.table s) (AutoRetry.broker s)
  end.

(** The number of tasks of a photo in a queue. *)
Definition tasks_of (photo_id : string) (queue : list AutoRetry.scheduled_task)
    : nat :=
  length (filter (fun t => AutoRetry.task_photo_id t = photo_id) queue).

End Schedule.

(** ** app/routes/match.py: the selfie match, SQLite mode *)

Module Match.






End Match.

(** ** app/database_sqlite.py: deletion *)

Module Deletion.

(** A counter column of [events] moved by [k]; an event without an entry
    has the column's DEFAULT 0, as in [update_photo_status]. *)
Definition add_to_count (event_id : string) (k : Z) (counts : gmap string Z)
    : gmap string Z :=
  <[event_id := (default 0%Z (counts !! event_id) + k)%Z]> counts.

(** database_sqlite.py, lines 190-207.  [delete_photo_file] is what the
    removal of the files does: it returns, or it raises before a row is
    touched.  The DELETE takes the rows of [face_embeddings] of the photo
    with it: they are declared ON DELETE CASCADE and [get_connection]
    switches the foreign keys on.  [photo_count] is the column of that
    name of [events]. *)
Definition delete_photo (delete_photo_file : py_result unit)
    (photo_id : string) (db : Database.database) (photo_count : gmap string Z)
    : py_result bool * (Database.database * gmap string Z) :=
  match Database.get_photo photo_id db with
  | None => (Returned false, (db, photo_count))
  | Some photo =>
      let event_id := Database.event_id photo in
      let was_processed :=
        bool_decide (Database.status photo = Database.Done) in
      match delete_photo_file with
      | Raised e => (Raised e, (db, photo_count))
      | Returned _ =>
          (Returned true,
           (Database.Db
              (delete photo_id (Database.photos db))
              (filter (fun r => Database.row_photo_id r <> photo_id)
                 (Database.face_embeddings db))
              (if was_processed
               then add_to_count event_id (-1) (Database.processed_count db)
               else Database.processed_count db)
              (Database.status_writes db),
            add_to_count event_id (-1) photo_count))
      end
  end.

End Deletion.

(* ===================================================================== *)
(** * Vocabulary of the properties *)
(* ===================================================================== *)

(** Notions the statements below are written with; none of them is code of
    the repository. *)

Section VectorSearchVocabulary.

Import FaceService Vectors.

(** The similarity a row is reported with. *)
Definition row_similarity (row : rpc_row) : R :=
  Np.round4 (default 0 (rpc_similarity row)).

(** Rows best first, as [ORDER BY embedding <=> target] returns them. *)
Definition rows_best_first (r1 r2 : rpc_row) : Prop :=
  default 0 (rpc_similarity r2) <= default 0 (rpc_similarity r1).

End VectorSearchVocabulary.

Section JobVocabulary.

Import Database.

(** The rows [save_face_embedding] writes for the faces of a photo. *)
Definition face_rows (pid eid : string) (faces : list FaceService.face)
    : list embedding_row :=
  map (fun f => EmbeddingRow pid eid (FaceService.face_embedding f)
                  (FaceService.location f)) faces.

(** The number of photos of [ids] whose status is [st]. *)
Definition count_status (st : photo_status) (ids : list string) (d : database)
    : Z :=
  Z.of_nat (length (filter (fun id => status <$> get_photo id d = Some st) ids)).

(** What a job counts, by executor: the pool counts a completion when the
    photo is done, Celery for every task that returns. *)
Definition completions (ex : Photos.executor) (ids : list string) (d : database)
    : Z :=
  match ex with
  | Photos.ThreadPool => count_status Done ids d
  | Photos.Celery => Z.of_nat (length ids)
  end.

End JobVocabulary.

Section RetryVocabulary.

Import Database AutoRetry.

(** The failed photos of an event, as both retries list them. *)
Definition failed_rows (eid : string) (d : database) : list (string * photo) :=
  filter (fun r => status r.2 = Error) (get_photos_for_event eid d).

(** The row of a photo after one more retry was recorded. *)
Definition retried_once (p : photo) : photo :=
  Photo (event_id p) (filename p) (status p) (face_count p)
    (processing_time_ms p) (Some (default 0%nat (retry_count p) + 1)%nat).

(** A photo the sweep of an event retries: in error, of the event, with
    retries left. *)
Definition eligible (eid : string) (p : photo) : bool :=
  bool_decide (event_id p = eid) && bool_decide (status p = Error)
  && bool_decide (default 0%nat (retry_count p) < MAX_RETRIES)%nat.

End RetryVocabulary.

Section UploadVocabulary.

Import Database Photos.


End UploadVocabulary.

Section SelfieMatchVocabulary.

Import Database FaceService Match.


End SelfieMatchVocabulary.

Section DeletionVocabulary.

Import Database FaceService.

(** The number of the photos of an event that are done. *)
Definition done_photos (eid : string) (d : database) : Z :=
  Z.of_nat (length (filter (fun r => status r.2 = Done)
                      (get_photos_for_event eid d))).

(** [processed_count] is, for every event, the number of its photos that
    are done. *)
Definition counts_done_photos (d : database) : Prop :=
  forall eid, default 0%Z (processed_count d !! eid) = done_photos eid d.


End DeletionVocabulary.

(* ===================================================================== *)
(** * Properties *)
(* ===================================================================== *)

(** ** Arithmetic of the matcher *)

Section Arithmetic.

Lemma sum_squares_nonneg (a : Np.ndarray) : 0 <= Np.sum_squares a.
Proof.
  induction a as [|x a IH]; simpl; [lra|].
  pose proof (Rle_0_sqr x) as Hx. unfold Rsqr in Hx. lra.
Qed.

Lemma linalg_norm_nonneg (a : Np.ndarray) : 0 <= Np.linalg_norm a.
Proof. apply sqrt_pos. Qed.

Lemma linalg_norm_sqr (a : Np.ndarray) :
  Np.linalg_norm a * Np.linalg_norm a = Np.sum_squares a.
Proof. apply sqrt_sqrt, sum_squares_nonneg. Qed.

(** The norm of a vector whose squares sum to [r * r]. *)
Lemma linalg_norm_eval (a : Np.ndarray) (r : R) :
  0 <= r -> Np.sum_squares a = r * r -> Np.linalg_norm a = r.
Proof.
  intros Hr Hs. unfold Np.linalg_norm. rewrite Hs. now apply sqrt_square.
Qed.

Lemma dot_cons_inv (x y : R) (a b : Np.ndarray) (d : R) :
  Np.dot (x :: a) (y :: b) = Np.Ok d ->
  exists s, Np.dot a b = Np.Ok s /\ d = x * y + s.
Proof.
  change (Np.dot (x :: a) (y :: b))
    with (Np.bind (fun s => Np.Ok (x * y + s)) (Np.dot a b)).
  destruct (Np.dot a b) as [s| |]; simpl; try discriminate.
  intros [= <-]. eauto.
Qed.

Lemma dot_length (a b : Np.ndarray) (d : R) :
  Np.dot a b = Np.Ok d -> length a = length b.
Proof.
  revert b d; induction a as [|x a IH]; intros [|y b] d; try discriminate.
  - reflexivity.
  - intros (s & Hs & _)%dot_cons_inv. simpl. f_equal. eapply IH, Hs.
Qed.



(** The quadratic [sum (a_i t + b_i)^2], expanded. *)
Lemma quadratic_nonneg (a b : Np.ndarray) (d t : R) :
  Np.dot a b = Np.Ok d ->
  0 <= Np.sum_squares a * (t * t) + 2 * d * t + Np.sum_squares b.
Proof.
  revert b d; induction a as [|x a IH]; intros [|y b] d; try discriminate.
  - intros [= <-]. simpl. lra.
  - intros (s & Hs & ->)%dot_cons_inv. specialize (IH b s Hs). simpl.
    pose proof (Rle_0_sqr (x * t + y)) as Hq. unfold Rsqr in Hq. nra.
Qed.

(** Cauchy-Schwarz, on the squares. *)
Lemma cauchy_schwarz (a b : Np.ndarray) (d : R) :
  Np.dot a b = Np.Ok d -> d * d <= Np.sum_squares a * Np.sum_squares b.
Proof.
  intros Hd.
  pose proof (sum_squares_nonneg a) as Ha.
  pose proof (sum_squares_nonneg b) as Hb.
  destruct (Req_dec_T (Np.sum_squares a) 0) as [Ha0|Ha0].
  - (* A = 0: the quadratic is linear and non-negative, so d = 0 *)
    destruct (Req_dec_T d 0) as [->|Hd0]; [rewrite Ha0; lra|exfalso].
    pose proof (quadratic_nonneg a b d (- (Np.sum_squares b + 1) / d) Hd) as H1.
    rewrite Ha0 in H1.
    replace (0 * (- (Np.sum_squares b + 1) / d * (- (Np.sum_squares b + 1) / d))
             + 2 * d * (- (Np.sum_squares b + 1) / d) + Np.sum_squares b)
      with (- Np.sum_squares b - 2) in H1 by (field; assumption).
    lra.
  - pose proof (quadratic_nonneg a b d (- d / Np.sum_squares a) Hd) as H1.
    assert (0 < Np.sum_squares a) as HA by lra.
    replace (Np.sum_squares a * (- d / Np.sum_squares a * (- d / Np.sum_squares a))
             + 2 * d * (- d / Np.sum_squares a) + Np.sum_squares b)
      with ((Np.sum_squares a * Np.sum_squares b - d * d) / Np.sum_squares a)
      in H1 by (field; lra).
    apply Rmult_le_compat_r with (r := Np.sum_squares a) in H1; [|lra].
    unfold Rdiv in H1. rewrite Rmult_assoc, Rinv_l in H1 by lra. lra.
Qed.

Lemma divide_nonzero (x y : R) :
  y <> 0 -> Np.divide x y = Np.Ok (x / y).
Proof. intros Hy. unfold Np.divide. destruct (Req_dec_T y 0); [contradiction|reflexivity]. Qed.

(** The cosine of two vectors of non-zero norm lies in [-1, 1]. *)
Lemma cosine_sim_range (a b : Np.ndarray) (c : R) :
  Np.linalg_norm a <> 0 -> Np.linalg_norm b <> 0 ->
  FaceService.cosine_sim a (Np.linalg_norm a) b (Np.linalg_norm b) = Np.Ok c ->
  -1 <= c <= 1.
Proof.
  intros Ha Hb. unfold FaceService.cosine_sim.
  destruct (Np.dot a b) as [d| |] eqn:Hd; simpl; try discriminate.
  unfold Np.divide. destruct (Req_dec_T _ 0) as [|Hn]; [discriminate|].
  intros [= <-].
  pose proof (linalg_norm_nonneg a) as Hna. pose proof (linalg_norm_nonneg b) as Hnb.
  pose proof (cauchy_schwarz a b d Hd) as Hcs.
  rewrite <- (linalg_norm_sqr a), <- (linalg_norm_sqr b) in Hcs.
  set (p := Np.linalg_norm a * Np.linalg_norm b) in *.
  assert (0 < p) as Hp by (unfold p; nra).
  assert (d * d <= p * p) as Hdp by (unfold p; nra).
  assert (- p <= d <= p) as [Hlo Hhi] by nra.
  split.
  - apply Rmult_le_reg_r with (r := p); [assumption|].
    unfold Rdiv. rewrite Rmult_assoc, Rinv_l by lra. lra.
  - apply Rmult_le_reg_r with (r := p); [assumption|].
    unfold Rdiv. rewrite Rmult_assoc, Rinv_l by lra. lra.
Qed.

(** *** Rounding *)

Lemma floor_spec (x : R) : IZR (Np.floor x) <= x < IZR (Np.floor x) + 1.
Proof.
  unfold Np.floor. rewrite minus_IZR. destruct (archimed x) as [H1 H2].
  simpl. lra.
Qed.

Lemma floor_unique (x : R) (n : Z) : IZR n <= x < IZR n + 1 -> Np.floor x = n.
Proof.
  intros [H1 H2]. destruct (floor_spec x) as [H3 H4].
  assert (IZR n < IZR (Np.floor x + 1)) as Ha by (rewrite plus_IZR; simpl; lra).
  assert (IZR (Np.floor x) < IZR (n + 1)) as Hb by (rewrite plus_IZR; simpl; lra).
  apply lt_IZR in Ha, Hb. lia.
Qed.

Lemma floor_mono (x y : R) : x <= y -> (Np.floor x <= Np.floor y)%Z.
Proof.
  intros Hxy. destruct (floor_spec x) as [H1 _]. destruct (floor_spec y) as [_ H2].
  assert (IZR (Np.floor x) < IZR (Np.floor y + 1)) as Ha
    by (rewrite plus_IZR; simpl; lra).
  apply lt_IZR in Ha. lia.
Qed.

Lemma round_half_even_floor (x : R) :
  (Np.floor x <= Np.round_half_even x <= Np.floor x + 1)%Z.
Proof.
  unfold Np.round_half_even.
  destruct (Rlt_dec _ _); [lia|]. destruct (Rlt_dec _ _); [lia|].
  destruct (Z.even _); lia.
Qed.

Lemma round_half_even_mono (x y : R) :
  x <= y -> (Np.round_half_even x <= Np.round_half_even y)%Z.
Proof.
  intros Hxy. pose proof (floor_mono x y Hxy) as Hf.
  destruct (Z.eq_dec (Np.floor x) (Np.floor y)) as [He|Hne].
  - unfold Np.round_half_even. rewrite <- He.
    destruct (Rlt_dec (x - _) _); [pose proof (round_half_even_floor y) as Hy;
      unfold Np.round_half_even in Hy; rewrite <- He in Hy; lia|].
    destruct (Rlt_dec (y - _) _); [lra|].
    destruct (Rlt_dec _ (x - _)).
    + destruct (Rlt_dec _ (y - _)); [lia|lra].
    + destruct (Rlt_dec _ (y - _)); [destruct (Z.even _); lia|lia].
  - pose proof (round_half_even_floor x). pose proof (round_half_even_floor y). lia.
Qed.

(** A value within a half of the integer [n] rounds to [n]. *)
Lemma round_half_even_near (x : R) (n : Z) :
  IZR n - 1 / 2 < x < IZR n + 1 / 2 -> Np.round_half_even x = n.
Proof.
  intros [H1 H2]. unfold Np.round_half_even.
  destruct (Rlt_dec x (IZR n)) as [Hlt|Hge].
  - assert (Np.floor x = (n - 1)%Z) as ->
      by (apply floor_unique; rewrite minus_IZR; simpl; lra).
    rewrite minus_IZR. simpl.
    destruct (Rlt_dec _ _); [lra|]. destruct (Rlt_dec _ _); [lia|lra].
  - assert (Np.floor x = n) as -> by (apply floor_unique; lra).
    destruct (Rlt_dec _ _); [reflexivity|lra].
Qed.

Lemma round4_mono (x y : R) : x <= y -> Np.round4 x <= Np.round4 y.
Proof.
  intros Hxy. unfold Np.round4.
  assert (Np.round_half_even (x * 10000) <= Np.round_half_even (y * 10000))%Z as H
    by (apply round_half_even_mono; lra).
  apply IZR_le in H. lra.
Qed.

Lemma round4_near (x : R) (n : Z) :
  IZR n - 1 / 2 < x * 10000 < IZR n + 1 / 2 -> Np.round4 x = IZR n / 10000.
Proof. intros H. unfold Np.round4. now rewrite (round_half_even_near _ n). Qed.

Lemma round4_IZR (n : Z) : Np.round4 (IZR n) = IZR n.
Proof.
  rewrite (round4_near _ (n * 10000)); rewrite mult_IZR; simpl; [field|lra].
Qed.

End Arithmetic.

(** ** The matcher: sorting, and the loop *)

Section Matcher.

Import FaceService.

Lemma sort_insert_perm (m : match_result) (l : list match_result) :
  sort_insert m l ≡ₚ (m :: l).
Proof.
  induction l as [|m' l IH]; simpl; [reflexivity|].
  destruct (Rlt_dec _ _); [|reflexivity].
  rewrite IH. apply Permutation_swap.
Qed.

Lemma sort_by_similarity_desc_perm (l : list match_result) :
  sort_by_similarity_desc l ≡ₚ l.
Proof.
  induction l as [|m l IH]; simpl; [reflexivity|].
  rewrite sort_insert_perm. now rewrite IH.
Qed.

Lemma sort_insert_sorted (m : match_result) (l : list match_result) :
  StronglySorted best_first l -> StronglySorted best_first (sort_insert m l).
Proof.
  induction 1 as [|m' l Hl IH Hall]; simpl.
  - repeat constructor.
  - destruct (Rlt_dec _ _) as [Hlt|Hge].
    + constructor; [assumption|].
      rewrite sort_insert_perm. constructor; [unfold best_first; lra|assumption].
    + constructor; [now constructor|].
      assert (similarity m' <= similarity m) as Hm by lra.
      constructor; [exact Hm|].
      eapply Forall_impl; [exact Hall|]. unfold best_first. intros; simpl in *; lra.
Qed.

Lemma sort_by_similarity_desc_sorted (l : list match_result) :
  StronglySorted best_first (sort_by_similarity_desc l).
Proof.
  induction l as [|m l IH]; simpl; [constructor|now apply sort_insert_sorted].
Qed.

(** What one iteration does: nothing, or one more result for a photo not
    seen before, carrying the rounded cosine of an embedding that passes. *)
Lemma match_step_spec (v : Np.ndarray) (n th : R)
    (st st' : list match_result * gset string) (s : stored_embedding) :
  match_step v n th st s = Np.Ok st' ->
  st' = st \/
  exists c,
    Np.linalg_norm (embedding s) <> 0 /\
    cosine_sim v n (embedding s) (Np.linalg_norm (embedding s)) = Np.Ok c /\
    th <= c /\ (photo_id s ∉ st.2) /\
    st' = (st.1 ++ [MatchResult (photo_id s) (Np.round4 c)], {[ photo_id s ]} ∪ st.2).
Proof.
  destruct st as [matches seen]. unfold match_step.
  destruct (Req_dec_T _ 0) as [|Hn]; [intros [= <-]; now left|].
  destruct (cosine_sim _ _ _ _) as [c| |] eqn:Hc; simpl; try discriminate.
  destruct (Rle_dec th c) as [Hth|]; [|intros [= <-]; now left].
  destruct (decide _) as [|Hnew]; [intros [= <-]; now left|].
  intros [= <-]. right. exists c. simpl. auto.
Qed.

Lemma admitted_weaken (v : Np.ndarray) (th : R) (l l' : list stored_embedding)
    (m : match_result) :
  l ⊆ l' -> admitted v th l m -> admitted v th l' m.
Proof. intros Hsub (s & c & Hs & H). exists s, c. split; [now apply Hsub|exact H]. Qed.

Lemma match_loop_spec (v : Np.ndarray) (th : R) (l : list stored_embedding)
    (st st' : list match_result * gset string) :
  match_loop v (Np.linalg_norm v) th l st = Np.Ok st' ->
  coherent st ->
  coherent st' /\
  exists new, st'.1 = st.1 ++ new /\ Forall (admitted v th l) new.
Proof.
  revert st; induction l as [|s l IH]; intros st; simpl.
  - intros [= <-] Hc. split; [exact Hc|]. exists []. now rewrite app_nil_r.
  - destruct (match_step _ _ _ st s) as [st1| |] eqn:Hstep; simpl; try discriminate.
    intros Hloop Hc.
    assert (coherent st1 /\
            exists new1, st1.1 = st.1 ++ new1 /\ Forall (admitted v th (s :: l)) new1)
      as [Hc1 (new1 & Hn1 & Ha1)].
    { destruct (match_step_spec _ _ _ _ _ _ Hstep)
        as [->|(c & Hnz & Hcos & Hth & Hnew & ->)].
      - split; [exact Hc|]. exists []. now rewrite app_nil_r.
      - destruct Hc as [Hnd Hseen]. split; [split|]; simpl.
        + rewrite map_app. simpl. apply NoDup_app. split; [exact Hnd|].
          split; [|apply NoDup_singleton].
          intros id Hid ->%list_elem_of_singleton.
          now apply Hnew, Hseen.
        + intros id. rewrite map_app, elem_of_app, elem_of_union, elem_of_singleton.
          simpl. rewrite list_elem_of_singleton, Hseen. tauto.
        + eexists. split; [reflexivity|]. repeat constructor.
          exists s, c. simpl. repeat split; auto. left. }
    destruct (IH st1 Hloop Hc1) as [Hc' (new & Hn & Ha)].
    split; [exact Hc'|]. exists (new1 ++ new). split.
    + now rewrite Hn, Hn1, app_assoc.
    + apply Forall_app. split; [exact Ha1|].
      eapply Forall_impl; [exact Ha|]. intros m. apply admitted_weaken.
      intros x Hx. now right.
Qed.





(** The two ways [find_matches] returns. *)
Lemma find_matches_inv (T : R) (v : Np.ndarray) (l : list stored_embedding)
    (th : option R) (ms : list match_result) :
  find_matches T v l th = Np.Ok ms ->
  (Np.linalg_norm v = 0 /\ ms = []) \/
  (Np.linalg_norm v <> 0 /\
   exists st, match_loop v (Np.linalg_norm v) (default T th) l ([], ∅) = Np.Ok st /\
              ms = sort_by_similarity_desc st.1).
Proof.
  unfold find_matches. destruct (Req_dec_T _ 0) as [Hz|Hnz].
  - intros [= <-]. now left.
  - destruct (match_loop _ _ _ _ _) as [st| |]; simpl; try discriminate.
    intros [= <-]. right. eauto.
Qed.

Lemma coherent_empty : coherent ([], ∅).
Proof. split; simpl; [constructor|]. intros id. set_solver. Qed.

(** Every result comes from a stored embedding that passes the threshold. *)
Lemma find_matches_admitted (T : R) (v : Np.ndarray) (l : list stored_embedding)
    (th : option R) (ms : list match_result) :
  find_matches T v l th = Np.Ok ms ->
  Forall (fun m => Np.linalg_norm v <> 0 /\ admitted v (default T th) l m) ms.
Proof.
  intros [[_ ->]|(Hnz & st & Hloop & ->)]%find_matches_inv; [constructor|].
  destruct (match_loop_spec _ _ _ _ _ Hloop coherent_empty) as [_ (new & Hn & Ha)].
  simpl in Hn. rewrite sort_by_similarity_desc_perm, Hn.
  eapply Forall_impl; [exact Ha|]. auto.
Qed.

(** No photo id occurs twice among the results. *)
Lemma find_matches_one_per_photo (T : R) (v : Np.ndarray)
    (l : list stored_embedding) (th : option R) (ms : list match_result) :
  find_matches T v l th = Np.Ok ms -> NoDup (map match_photo_id ms).
Proof.
  intros [[_ ->]|(Hnz & st & Hloop & ->)]%find_matches_inv; [constructor|].
  destruct (match_loop_spec _ _ _ _ _ Hloop coherent_empty) as [[Hnd _] _].
  now rewrite sort_by_similarity_desc_perm.
Qed.


Lemma match_loop_app (v : Np.ndarray) (n th : R)
    (l1 l2 : list stored_embedding) (st : list match_result * gset string) :
  match_loop v n th (l1 ++ l2) st =
    Np.bind (match_loop v n th l2) (match_loop v n th l1 st).
Proof.
  revert st; induction l1 as [|s l1 IH]; intros st; simpl; [reflexivity|].
  destruct (match_step v n th st s); simpl; auto.
Qed.

(** Which of several faces of a photo is reported: the first one, in the
    stored order, whose cosine passes the threshold. *)
Lemma find_matches_reports_first_passing (T : R) (v : Np.ndarray)
    (l1 l2 : list stored_embedding) (s : stored_embedding) (th : option R)
    (c : R) (ms : list match_result) :
  find_matches T v (l1 ++ s :: l2) th = Np.Ok ms ->
  Np.linalg_norm v <> 0 -> Np.linalg_norm (embedding s) <> 0 ->
  cosine_sim v (Np.linalg_norm v) (embedding s) (Np.linalg_norm (embedding s))
    = Np.Ok c ->
  default T th <= c ->
  (forall s', s' ∈ l1 -> photo_id s' = photo_id s ->
     forall c', cosine_sim v (Np.linalg_norm v) (embedding s')
                  (Np.linalg_norm (embedding s')) = Np.Ok c' ->
                c' < default T th) ->
  MatchResult (photo_id s) (Np.round4 c) ∈ ms.
Proof.
  intros Hfm Hv Hs Hcos Hth Hfirst.
  apply find_matches_inv in Hfm as [[Hz _]|(_ & st & Hloop & ->)]; [contradiction|].
  rewrite sort_by_similarity_desc_perm.
  rewrite match_loop_app in Hloop.
  destruct (match_loop v _ _ l1 _) as [st1| |] eqn:H1; simpl in Hloop; try discriminate.
  destruct (match_loop_spec _ _ _ _ _ H1 coherent_empty) as [[_ Hseen1] (new1 & Hn1 & Ha1)].
  simpl in Hn1.
  assert (photo_id s ∉ st1.2) as Hnew.
  { rewrite Hseen1, Hn1. intros (m & Hid & Hm)%list_elem_of_fmap.
    rewrite Forall_forall in Ha1.
    destruct (Ha1 m Hm) as (s' & c' & Hs' & Hid' & _ & Hc' & Hth' & _).
    specialize (Hfirst s' Hs' ltac:(congruence) c' Hc'). lra. }
  simpl in Hloop.
  assert (match_step v (Np.linalg_norm v) (default T th) st1 s
          = Np.Ok (st1.1 ++ [MatchResult (photo_id s) (Np.round4 c)],
                   {[ photo_id s ]} ∪ st1.2)) as Hstep.
  { destruct st1 as [m1 seen1]. unfold match_step.
    destruct (Req_dec_T _ 0); [contradiction|]. rewrite Hcos. simpl.
    destruct (Rle_dec _ _); [|contradiction].
    destruct (decide _); [contradiction|reflexivity]. }
  rewrite Hstep in Hloop. simpl in Hloop.
  assert (coherent (st1.1 ++ [MatchResult (photo_id s) (Np.round4 c)],
                    {[ photo_id s ]} ∪ st1.2)) as Hc2.
  { pose proof (match_loop_spec v (default T th) [s] st1
                  (st1.1 ++ [MatchResult (photo_id s) (Np.round4 c)],
                   {[ photo_id s ]} ∪ st1.2)) as Hsp.
    simpl in Hsp. rewrite Hstep in Hsp. simpl in Hsp.
    apply Hsp; [reflexivity|].
    apply (match_loop_spec _ _ _ _ _ H1 coherent_empty). }
  destruct (match_loop_spec _ _ _ _ _ Hloop Hc2) as [_ (new2 & Hn2 & _)].
  rewrite Hn2. simpl. rewrite !elem_of_app, list_elem_of_singleton. auto.
Qed.

(** *** Evaluating the loop on given vectors *)

Lemma cosine_sim_eval (v b : Np.ndarray) (n nb d : R) :
  Np.dot v b = Np.Ok d -> n * nb <> 0 ->
  cosine_sim v n b nb = Np.Ok (d / (n * nb)).
Proof.
  intros Hd Hn. unfold cosine_sim. rewrite Hd. simpl. now apply divide_nonzero.
Qed.

Lemma match_step_eval (v : Np.ndarray) (n th nb d c : R)
    (matches : list match_result) (seen : gset string) (s : stored_embedding) :
  Np.linalg_norm (embedding s) = nb -> nb <> 0 -> n <> 0 ->
  Np.dot v (embedding s) = Np.Ok d -> c = d / (n * nb) ->
  match_step v n th (matches, seen) s =
    if Rle_dec th c then
      if decide (photo_id s ∈ seen) then Np.Ok (matches, seen)
      else Np.Ok (matches ++ [MatchResult (photo_id s) (Np.round4 c)],
                  {[ photo_id s ]} ∪ seen)
    else Np.Ok (matches, seen).
Proof.
  intros Hnb Hnz Hn Hd ->. unfold match_step. rewrite Hnb.
  destruct (Req_dec_T nb 0); [contradiction|].
  rewrite (cosine_sim_eval _ _ _ _ d) by (auto; nra). reflexivity.
Qed.

Lemma match_loop_cons_ok (v : Np.ndarray) (n th : R) (s : stored_embedding)
    (l : list stored_embedding) (st st1 : list match_result * gset string) :
  match_step v n th st s = Np.Ok st1 ->
  match_loop v n th (s :: l) st = match_loop v n th l st1.
Proof. intros H. simpl. now rewrite H. Qed.

Lemma match_step_take (v : Np.ndarray) (n th nb d : R)
    (matches : list match_result) (seen : gset string) (s : stored_embedding) :
  Np.linalg_norm (embedding s) = nb -> nb <> 0 -> n <> 0 ->
  Np.dot v (embedding s) = Np.Ok d -> th <= d / (n * nb) -> photo_id s ∉ seen ->
  match_step v n th (matches, seen) s =
    Np.Ok (matches ++ [MatchResult (photo_id s) (Np.round4 (d / (n * nb)))],
           {[ photo_id s ]} ∪ seen).
Proof.
  intros Hnb Hnz Hn Hd Hth Hnew.
  rewrite (match_step_eval v n th nb d (d / (n * nb))) by auto.
  destruct (Rle_dec _ _); [|contradiction].
  destruct (decide _); [contradiction|reflexivity].
Qed.

Lemma match_step_duplicate (v : Np.ndarray) (n th nb d : R)
    (matches : list match_result) (seen : gset string) (s : stored_embedding) :
  Np.linalg_norm (embedding s) = nb -> nb <> 0 -> n <> 0 ->
  Np.dot v (embedding s) = Np.Ok d -> photo_id s ∈ seen ->
  match_step v n th (matches, seen) s = Np.Ok (matches, seen).
Proof.
  intros Hnb Hnz Hn Hd Hseen.
  rewrite (match_step_eval v n th nb d (d / (n * nb))) by auto.
  destruct (Rle_dec _ _); [|reflexivity].
  destruct (decide _); [reflexivity|contradiction].
Qed.

End Matcher.

(** ** Four runs of the matcher *)

Ltac norm_is := apply linalg_norm_eval; simpl; lra.

(** One iteration that appends a result; [nb] is the norm of the stored
    vector and [d] its dot product with the query. *)
Ltac loop_takes nb d :=
  erewrite match_loop_cons_ok;
  [|apply (match_step_take _ _ _ nb d);
    [norm_is|lra|lra|simpl; f_equal; lra|simpl; lra|set_unfold; intuition discriminate]].

(** One iteration that meets a photo already seen. *)
Ltac loop_skips_seen nb d :=
  erewrite match_loop_cons_ok;
  [|apply (match_step_duplicate _ _ _ nb d);
    [norm_is|lra|lra|simpl; f_equal; lra|set_unfold; intuition]].

Section MatcherClaims.

Import FaceService.

(** Two faces of one photo, the better one stored second. *)
Lemma find_matches_run_same_photo :
  find_matches (4 / 10) [1; 0]
    [StoredEmbedding [3; 4] "p1"; StoredEmbedding [1; 0] "p1"] None
  = Np.Ok [MatchResult "p1" (6 / 10)].
Proof.
  unfold find_matches.
  assert (Np.linalg_norm [1; 0] = 1) as Hn by (apply linalg_norm_eval; simpl; lra).
  rewrite Hn. destruct (Req_dec_T 1 0); [lra|]. cbn [default].
  loop_takes 5 3.
  loop_skips_seen 1 1.
  simpl. rewrite (round4_near _ 6000) by lra. do 3 f_equal. lra.
Qed.

(** Two photos, the better one stored second. *)
Lemma find_matches_run_two_photos :
  find_matches (4 / 10) [1; 0]
    [StoredEmbedding [3; 4] "p1"; StoredEmbedding [1; 0] "p2"] None
  = Np.Ok [MatchResult "p2" 1; MatchResult "p1" (6 / 10)].
Proof.
  unfold find_matches.
  assert (Np.linalg_norm [1; 0] = 1) as Hn by (apply linalg_norm_eval; simpl; lra).
  rewrite Hn. destruct (Req_dec_T 1 0); [lra|]. cbn [default].
  loop_takes 5 3.
  loop_takes 1 1.
  cbn [match_loop mbind outcome_bind Np.bind fst app photo_id].
  rewrite (round4_near (3 / (1 * 5)) 6000) by lra.
  rewrite (round4_near (1 / (1 * 1)) 10000) by lra.
  unfold sort_by_similarity_desc. cbn [foldr sort_insert similarity].
  destruct (Rlt_dec _ _); [|lra]. repeat (f_equal; try lra).
Qed.


(** A cosine of 5/13 = 0.384615..., at threshold 0.38461. *)
Lemma find_matches_run_rounded_down :
  find_matches (4 / 10) [1; 0] [StoredEmbedding [5; 12] "p1"]
    (Some (38461 / 100000))
  = Np.Ok [MatchResult "p1" (3846 / 10000)].
Proof.
  unfold find_matches.
  assert (Np.linalg_norm [1; 0] = 1) as Hn by (apply linalg_norm_eval; simpl; lra).
  rewrite Hn. destruct (Req_dec_T 1 0); [lra|]. cbn [default].
  loop_takes 13 5.
  simpl. now rewrite (round4_near _ 3846) by lra.
Qed.

(** ** Claims on the matcher *)

(** C1. The claim asks that a photo with several embeddings above the
    threshold is reported with the highest of their similarities.  At this
    input the photo [p1] has two such embeddings, of cosine 0.6 and 1.0;
    [find_matches] reports [p1] once, with 0.6: the embedding met first in
    the stored order wins, since the photo is marked as seen before the
    list is sorted. *)
Theorem find_matches_keeps_first_not_best :
  let selfie := [1; 0] in
  let stored := [StoredEmbedding [3; 4] "p1"; StoredEmbedding [1; 0] "p1"] in
  find_matches (4 / 10) selfie stored None = Np.Ok [MatchResult "p1" (6 / 10)] /\
  cosine_sim selfie (Np.linalg_norm selfie) [1; 0] (Np.linalg_norm [1; 0]) = Np.Ok 1 /\
  4 / 10 <= 1 /\ 6 / 10 < Np.round4 1.
Proof.
  cbv zeta. split; [exact find_matches_run_same_photo|].
  assert (Np.linalg_norm [1; 0] = 1) as -> by norm_is.
  split; [|split; [lra|]].
  - rewrite (cosine_sim_eval _ _ _ _ 1) by (simpl; try f_equal; lra).
    f_equal. field.
  - rewrite (round4_IZR 1). lra.
Qed.




(** In general a returned similarity lies in [-1, 1]. *)
Lemma find_matches_similarity_cosine_range (T : R) (v : Np.ndarray)
    (l : list stored_embedding) (th : option R) (ms : list match_result) :
  find_matches T v l th = Np.Ok ms ->
  Forall (fun m => -1 <= similarity m <= 1) ms.
Proof.
  intros Hfm. eapply Forall_impl; [exact (find_matches_admitted _ _ _ _ _ Hfm)|].
  intros m (Hv & s & c & _ & _ & Hs & Hcos & Hc & ->).
  destruct (cosine_sim_range _ _ _ Hv Hs Hcos) as [Hlo Hhi].
  rewrite <- (round4_IZR (-1)), <- (round4_IZR 1).
  split; apply round4_mono; simpl; lra.
Qed.




(** C9. The returned list is sorted by similarity, best first. *)
Theorem find_matches_sorted (T : R) (v : Np.ndarray)
    (l : list stored_embedding) (th : option R) (ms : list match_result) :
  find_matches T v l th = Np.Ok ms -> StronglySorted best_first ms.
Proof.
  intros [[_ ->]|(_ & st & _ & ->)]%find_matches_inv; [constructor|].
  apply sort_by_similarity_desc_sorted.
Qed.

Lemma find_matches_sorted_witness :
  StronglySorted best_first [MatchResult "p2" 1; MatchResult "p1" (6 / 10)].
Proof.
  apply (find_matches_sorted (4 / 10) [1; 0]
           [StoredEmbedding [3; 4] "p1"; StoredEmbedding [1; 0] "p2"] None).
  exact find_matches_run_two_photos.
Defined.

(** C10. Every returned match reports the cosine of a stored embedding of
    its photo rounded to 4 decimal places, while it is the unrounded cosine
    that was compared with the threshold; and at some input a reported
    similarity is strictly below the threshold that admitted it. *)
Theorem find_matches_rounds_after_threshold :
  (forall (T : R) (v : Np.ndarray) (l : list stored_embedding) (th : option R)
          (ms : list match_result) (m : match_result),
     find_matches T v l th = Np.Ok ms -> m ∈ ms ->
     exists s c,
       s ∈ l /\ photo_id s = match_photo_id m /\
       cosine_sim v (Np.linalg_norm v) (embedding s) (Np.linalg_norm (embedding s))
         = Np.Ok c /\
       default T th <= c /\ similarity m = Np.round4 c) /\
  (exists (T : R) (v : Np.ndarray) (l : list stored_embedding) (th : option R)
          (ms : list match_result) (m : match_result),
     find_matches T v l th = Np.Ok ms /\ m ∈ ms /\ similarity m < default T th).
Proof.
  split.
  - intros T v l th ms m Hfm Hm.
    pose proof (find_matches_admitted _ _ _ _ _ Hfm) as Hall.
    rewrite Forall_forall in Hall.
    destruct (Hall m Hm) as (_ & s & c & Hs & Hid & _ & Hcos & Hc & Hr).
    exists s, c. auto.
  - exists (4 / 10), [1; 0], [StoredEmbedding [5; 12] "p1"],
      (Some (38461 / 100000)), [MatchResult "p1" (3846 / 10000)],
      (MatchResult "p1" (3846 / 10000)).
    split; [exact find_matches_run_rounded_down|].
    split; [left|simpl; lra].
Qed.

Lemma find_matches_rounds_after_threshold_witness :
  exists s c,
    s ∈ [StoredEmbedding [5; 12] "p1"] /\ photo_id s = "p1" /\
    cosine_sim [1; 0] (Np.linalg_norm [1; 0]) (embedding s)
      (Np.linalg_norm (embedding s)) = Np.Ok c /\
    38461 / 100000 <= c /\ 3846 / 10000 = Np.round4 c.
Proof.
  apply (proj1 find_matches_rounds_after_threshold (4 / 10) [1; 0]
           [StoredEmbedding [5; 12] "p1"] (Some (38461 / 100000))
           [MatchResult "p1" (3846 / 10000)] (MatchResult "p1" (3846 / 10000))).
  - exact find_matches_run_rounded_down.
  - left.
Defined.

End MatcherClaims.

(** ** The extractor *)

Section Extractor.

Import FaceService.

(** [detect_and_encode] returns a list whatever the model does. *)
Lemma detect_and_encode_never_raises
    (represent : string -> py_result (list represent_result)) (path : string) :
  exists faces, detect_and_encode represent path = Returned faces.
Proof. unfold detect_and_encode. destruct (represent path); eauto. Qed.

(** A failure of the model gives the empty list. *)
Lemma detect_and_encode_on_failure
    (represent : string -> py_result (list represent_result))
    (path exc : string) :
  represent path = Raised exc -> detect_and_encode represent path = Returned [].
Proof. intros H. unfold detect_and_encode. now rewrite H. Qed.

(** C3. The claim asks that an I/O failure is signalled as an error,
    distinct from the empty result of an image without a face.  Here the
    model raises on the path that does not exist and finds no face in the
    other image: [detect_and_encode] answers both with the same empty
    list, and [encode_selfie] with the same [None]. *)
Theorem detect_and_encode_hides_failure :
  let represent := fun path : string =>
    if decide (path = "/nonexistent/image.jpg")
    then Raised "ValueError: Confirm that /nonexistent/image.jpg exists"
    else Returned [] in
  detect_and_encode represent "/nonexistent/image.jpg" = Returned [] /\
  detect_and_encode represent "/tmp/solid_blue.jpg" = Returned [] /\
  encode_selfie represent "/nonexistent/image.jpg" = Returned None /\
  encode_selfie represent "/tmp/solid_blue.jpg" = Returned None.
Proof. repeat split. Qed.

End Extractor.

(** ** The pipeline *)

Section Pipeline.

Import Database.

Lemma update_photo_status_found (pid : string) (st : photo_status) (fc : Z)
    (ms : option Z) (d : database) (p : photo) :
  get_photo pid d = Some p ->
  status_writes (update_photo_status pid st fc ms d) = status_writes d ++ [(pid, st)] /\
  exists p', get_photo pid (update_photo_status pid st fc ms d) = Some p' /\
             status p' = st /\ face_count p' = fc.
Proof.
  unfold get_photo, update_photo_status. intros ->. simpl. split; [reflexivity|].
  eexists. rewrite lookup_insert_eq. split; [reflexivity|]. simpl. auto.
Qed.

Lemma save_faces_keeps_photos (ok : nat -> bool) (n : nat) (pid eid : string)
    (faces : list FaceService.face) (d : database) :
  photos (save_faces ok n pid eid faces d).1 = photos d /\
  status_writes (save_faces ok n pid eid faces d).1 = status_writes d.
Proof.
  revert n d; induction faces as [|f faces IH]; intros n d; simpl; [auto|].
  destruct (ok n); [|auto]. destruct (IH (S n) (save_face_embedding pid eid
    (FaceService.face_embedding f) (FaceService.location f) d)) as [-> ->]. auto.
Qed.

(** The runs of the pool's [process_photo] on a photo that is found: the
    status is written once, error with the failure counted or done with
    the completion counted, after the processing counter. *)
Lemma worker_process_photo_found (pid eid : string) (env : job_env) (w : world)
    (p : photo) :
  get_photo pid (db w) = Some p ->
  exists d st fc ms k,
    photos d = photos (db w) /\ status_writes d = status_writes (db w) /\
    ((st = Error /\ k = Progress.Failed) \/ (st = Done /\ k = Progress.Completed)) /\
    Worker.process_photo pid eid env w =
      World (update_photo_status pid st fc ms d)
        (Progress.update_progress eid k 1
           (Progress.update_progress eid Progress.Processing 1 (progress_store w))).
Proof.
  intros Hp. unfold Worker.process_photo. rewrite Hp.
  destruct (resolve_image env) as [[path cleanup]|e].
  2:{ exists (db w), Error, 0%Z, None, Progress.Failed. auto 10. }
  destruct (path_exists env); simpl.
  2:{ exists (db w), Error, 0%Z, None, Progress.Failed. auto 10. }
  destruct (detect_and_encode_never_raises (DeepFace_represent env) path)
    as [faces ->].
  pose proof (save_faces_keeps_photos (save_ok env) 0 pid eid faces (db w)) as [Hph Hsw].
  destruct (save_faces (save_ok env) 0 pid eid faces (db w)) as [d saved].
  simpl in Hph, Hsw. destruct saved.
  - exists d, Done, (Z.of_nat (length faces)), (Some (elapsed_ms env)),
      Progress.Completed. auto 10.
  - exists d, Error, 0%Z, None, Progress.Failed. auto 10.
Qed.

Lemma worker_process_photo_not_found (pid eid : string) (env : job_env)
    (w : world) :
  get_photo pid (db w) = None -> Worker.process_photo pid eid env w = w.
Proof. intros Hp. unfold Worker.process_photo. now rewrite Hp. Qed.

(** The callback after a returned task counts a completion, whatever was
    returned. *)
Lemma on_success_counts_completed (r : Tasks.task_return) (pid eid : string)
    (w : world) :
  eid <> "" ->
  Tasks.on_success r [pid; eid] w = progress eid Progress.Completed w.
Proof.
  intros He. unfold Tasks.on_success, Tasks.arg. simpl.
  destruct (decide (eid = "")); [contradiction|reflexivity].
Qed.

Lemma on_success_keeps_db (r : Tasks.task_return) (args : list string)
    (w : world) :
  db (Tasks.on_success r args w) = db w.
Proof. unfold Tasks.on_success. destruct (Tasks.arg 1 args); reflexivity. Qed.

(** The runs of the task body on a photo that is found. *)
Lemma tasks_process_photo_found (pid eid : string) (env : job_env) (w : world)
    (p : photo) :
  get_photo pid (db w) = Some p ->
  exists d st fc ms,
    photos d = photos (db w) /\ status_writes d = status_writes (db w) /\
    ((st = Error /\
      (Tasks.process_photo pid eid env w).2 =
        World (update_photo_status pid st fc ms d)
          (Progress.update_progress eid Progress.Failed 1
             (Progress.update_progress eid Progress.Processing 1 (progress_store w)))) \/
     (st = Done /\
      (Tasks.process_photo pid eid env w).2 =
        World (update_photo_status pid st fc ms d)
          (Progress.update_progress eid Progress.Processing 1 (progress_store w)))).
Proof.
  intros Hp. unfold Tasks.process_photo. rewrite Hp.
  destruct (resolve_image env) as [[path cleanup]|e].
  2:{ exists (db w), Error, 0%Z, None. auto 10. }
  destruct (path_exists env); simpl.
  2:{ exists (db w), Error, 0%Z, None. auto 10. }
  destruct (detect_and_encode_never_raises (DeepFace_represent env) path)
    as [faces ->].
  pose proof (save_faces_keeps_photos (save_ok env) 0 pid eid faces (db w)) as [Hph Hsw].
  destruct (save_faces (save_ok env) 0 pid eid faces (db w)) as [d saved].
  simpl in Hph, Hsw. destruct saved.
  - exists d, Done, (Z.of_nat (length faces)), (Some (elapsed_ms env)). auto 10.
  - exists d, Error, 0%Z, None. auto 10.
Qed.

Lemma tasks_process_photo_not_found (pid eid : string) (env : job_env)
    (w : world) :
  get_photo pid (db w) = None ->
  (Tasks.process_photo pid eid env w).2 = w.
Proof. intros Hp. unfold Tasks.process_photo. now rewrite Hp. Qed.

Lemma run_task_world (pid eid : string) (env : job_env) (w : world) :
  (Tasks.run_task pid eid env w).2 =
    Tasks.on_success (Tasks.process_photo pid eid env w).1 [pid; eid]
      (Tasks.process_photo pid eid env w).2.
Proof. unfold Tasks.run_task. now destruct (Tasks.process_photo pid eid env w). Qed.

(** The database after a job, for both executors. *)
Lemma run_job_db (ex : Photos.executor) (pid eid : string) (env : job_env)
    (w : world) :
  match get_photo pid (db w) with
  | None => db (Photos.run_job ex pid eid env w) = db w
  | Some _ =>
      exists d st fc ms,
        photos d = photos (db w) /\ status_writes d = status_writes (db w) /\
        (st = Done \/ st = Error) /\
        db (Photos.run_job ex pid eid env w) = update_photo_status pid st fc ms d
  end.
Proof.
  destruct (get_photo pid (db w)) as [p|] eqn:Hp; destruct ex; simpl.
  - destruct (worker_process_photo_found pid eid env w p Hp)
      as (d & st & fc & ms & k & H1 & H2 & Hst & ->).
    exists d, st, fc, ms. simpl. intuition.
  - rewrite run_task_world, on_success_keeps_db.
    destruct (tasks_process_photo_found pid eid env w p Hp)
      as (d & st & fc & ms & H1 & H2 & [[Hst Heq]|[Hst Heq]]);
      rewrite Heq; exists d, st, fc, ms; simpl; intuition.
  - now rewrite worker_process_photo_not_found.
  - now rewrite run_task_world, on_success_keeps_db, tasks_process_photo_not_found.
Qed.

(** *** The counters *)

Lemma entry_update_progress (eid : string) (s : Progress.progress_status)
    (n : Z) (store : gmap string Progress.counters) :
  Progress.entry (Progress.update_progress eid s n store) eid =
    Progress.add_to s n (Progress.entry store eid).
Proof.
  unfold Progress.update_progress, Progress.entry at 1. now rewrite lookup_insert_eq.
Qed.

Lemma entry_reset_progress (eid : string) (store : gmap string Progress.counters) :
  Progress.entry (Progress.reset_progress eid store) eid = Progress.zero.
Proof. unfold Progress.reset_progress, Progress.entry. now rewrite lookup_insert_eq. Qed.

Lemma entry_set_total (eid : string) (n : Z)
    (store : gmap string Progress.counters) :
  Progress.entry (Progress.set_total eid n store) eid =
    Progress.Counters (Progress.uploaded (Progress.entry store eid))
      (Progress.processing (Progress.entry store eid))
      (Progress.completed (Progress.entry store eid))
      (Progress.failed (Progress.entry store eid)) n.
Proof.
  unfold Progress.set_total, Progress.entry at 1. now rewrite lookup_insert_eq.
Qed.

Lemma update_photo_status_keeps (pid id : string) (st : photo_status) (fc : Z)
    (ms : option Z) (d : database) :
  is_Some (get_photo id d) -> is_Some (get_photo id (update_photo_status pid st fc ms d)).
Proof.
  unfold get_photo, update_photo_status. intros Hid.
  destruct (photos d !! pid) as [p|] eqn:Hp; [|exact Hid]. simpl.
  destruct (decide (pid = id)) as [->|Hne].
  - rewrite lookup_insert_eq. eauto.
  - now rewrite lookup_insert_ne.
Qed.

(** A job of the pool on a photo that is found counts the photo once as
    processing and once as completed or failed, and keeps the photos. *)
Lemma worker_process_photo_counters (pid eid : string) (env : job_env)
    (w : world) :
  is_Some (get_photo pid (db w)) ->
  let c := Progress.entry (progress_store w) eid in
  let c' := Progress.entry (progress_store (Worker.process_photo pid eid env w)) eid in
  Progress.uploaded c' = Progress.uploaded c /\
  Progress.total c' = Progress.total c /\
  Progress.processing c' = (Progress.processing c + 1)%Z /\
  (Progress.completed c' + Progress.failed c'
   = Progress.completed c + Progress.failed c + 1)%Z /\
  (Progress.completed c <= Progress.completed c')%Z /\
  (Progress.failed c <= Progress.failed c')%Z /\
  forall id, is_Some (get_photo id (db w)) ->
             is_Some (get_photo id (db (Worker.process_photo pid eid env w))).
Proof.
  intros [p Hp]. cbv zeta.
  destruct (worker_process_photo_found pid eid env w p Hp)
    as (d & st & fc & ms & k & Hph & _ & Hk & ->). simpl.
  rewrite !entry_update_progress.
  assert (forall id, is_Some (get_photo id (db w)) ->
                     is_Some (get_photo id (update_photo_status pid st fc ms d))) as Hkeep.
  { intros id Hid. apply update_photo_status_keeps. unfold get_photo in *.
    now rewrite Hph. }
  destruct Hk as [[_ ->]|[_ ->]]; simpl; repeat split; auto; lia.
Qed.

Lemma run_jobs_thread_pool_counters (eid : string) (env_of : string -> job_env)
    (order : list string) (w : world) :
  (forall id, id ∈ order -> is_Some (get_photo id (db w))) ->
  let c := Progress.entry (progress_store w) eid in
  let c' := Progress.entry
              (progress_store (Photos.run_jobs Photos.ThreadPool eid env_of order w)) eid in
  Progress.uploaded c' = Progress.uploaded c /\
  Progress.total c' = Progress.total c /\
  Progress.processing c' = (Progress.processing c + Z.of_nat (length order))%Z /\
  (Progress.completed c' + Progress.failed c'
   = Progress.completed c + Progress.failed c + Z.of_nat (length order))%Z /\
  (Progress.completed c <= Progress.completed c')%Z /\
  (Progress.failed c <= Progress.failed c')%Z.
Proof.
  cbv zeta. revert w; induction order as [|pid order IH]; intros w Hall.
  - simpl. repeat split; lia.
  - cbn [Photos.run_jobs Photos.run_job].
    destruct (worker_process_photo_counters pid eid (env_of pid) w)
      as (H1 & H2 & H3 & H4 & H5 & H6 & Hkeep); [apply Hall; left|].
    destruct (IH (Worker.process_photo pid eid (env_of pid) w))
      as (I1 & I2 & I3 & I4 & I5 & I6).
    { intros id Hid. apply Hkeep, Hall. now right. }
    rewrite I1, I2, I3, I4, H1, H2, H3, H4.
    rewrite length_cons, Nat2Z.inj_succ.
    repeat split; lia.
Qed.

Lemma create_photo_found (pid eid fn : string) (d : database) :
  is_Some (get_photo pid (create_photo pid eid fn d)).
Proof. unfold get_photo, create_photo. simpl. rewrite lookup_insert_eq. eauto. Qed.

Lemma create_photo_keeps (pid id eid fn : string) (d : database) :
  is_Some (get_photo id d) -> is_Some (get_photo id (create_photo pid eid fn d)).
Proof.
  unfold get_photo, create_photo. simpl. intros Hid.
  destruct (decide (pid = id)) as [->|Hne].
  - rewrite lookup_insert_eq. eauto.
  - now rewrite lookup_insert_ne.
Qed.

(** The upload loop counts each photo it creates once as uploaded. *)
Lemma upload_loop_counters (LIMIT : Z) (eid : string) (pc : Z)
    (items : list Photos.upload_item) (w w' : world) (up up' : list string)
    (lim lim' : bool) :
  foldl (Photos.upload_step LIMIT eid pc) (w, up, lim) items = (w', up', lim') ->
  Progress.entry (progress_store w) eid
    = Progress.Counters (Z.of_nat (length up)) 0 0 0 0 ->
  (forall id, id ∈ up -> is_Some (get_photo id (db w))) ->
  Progress.entry (progress_store w') eid
    = Progress.Counters (Z.of_nat (length up')) 0 0 0 0 /\
  (forall id, id ∈ up' -> is_Some (get_photo id (db w'))).
Proof.
  revert w up lim; induction items as [|it items IH]; intros w up lim; simpl.
  - intros [= <- <- <-]. auto.
  - intros Hfold Hc Hall. unfold Photos.upload_step at 1 in Hfold.
    destruct (bool_decide _); [eapply IH; eauto|].
    destruct (Photos.item_valid it); [|eapply IH; eauto].
    eapply IH; [exact Hfold| |].
    + simpl. rewrite entry_update_progress, Hc. simpl.
      rewrite length_app. simpl. f_equal. lia.
    + simpl. intros id [Hid| ->%list_elem_of_singleton]%elem_of_app.
      * apply create_photo_keeps, Hall, Hid.
      * apply create_photo_found.
Qed.

(** After an accepted upload the counters of the event are
    [uploaded = total =] the number of photos created, the others zero, and
    every photo created is in the table. *)
Lemma api_upload_photos_counters (LIMIT : Z) (eid : string) (pc : Z)
    (items : list Photos.upload_item) (w w1 : world) (ids : list string) :
  Photos.api_upload_photos LIMIT eid pc items w = (Returned ids, w1) ->
  Progress.entry (progress_store w1) eid
    = Progress.Counters (Z.of_nat (length ids)) 0 0 0 (Z.of_nat (length ids)) /\
  (forall id, id ∈ ids -> is_Some (get_photo id (db w1))).
Proof.
  unfold Photos.api_upload_photos. destruct (bool_decide _); [discriminate|].
  destruct (foldl _ _ items) as [[w' up'] lim'] eqn:Hfold.
  apply upload_loop_counters in Hfold as [Hc Hall]; simpl.
  - destruct (lim' && bool_decide (up' = [])); [discriminate|].
    intros [= <- <-]. destruct up' as [|id up']; [auto|].
    simpl progress_store. rewrite entry_set_total, Hc. simpl. auto.
  - apply entry_reset_progress.
  - intros id Hid. inversion Hid.
Qed.

End Pipeline.

(** ** Claims on the pipeline *)

Section PipelineClaims.

Import Database.

(** C4, as stated: a pending photo that is processed has its status set
    to processing before it becomes done or error.  It fails: in this run
    of the worker pool the only value written to the status is done. *)
Lemma process_photo_skips_processing_status :
  ~ (forall (ex : Photos.executor) (pid eid : string) (env : job_env) (w : world)
            (p : photo),
       get_photo pid (db w) = Some p -> status p = Pending ->
       (pid, InProcessing) ∈ status_writes (db (Photos.run_job ex pid eid env w))).
Proof.
  intros H.
  specialize (H Photos.ThreadPool "p1" "e1"
    (JobEnv (Returned ("/uploads/e1/a.jpg", false)) true (fun _ => Returned [])
       (fun _ => true) 12)
    (World (Db {[ "p1" := Photo "e1" "a.jpg" Pending 0 None None ]} [] ∅ []) ∅)
    (Photo "e1" "a.jpg" Pending 0 None None) eq_refl eq_refl).
  vm_compute in H. apply list_elem_of_singleton in H. discriminate.
Qed.

(** C4, amended: a run of [process_photo], by either executor, writes the
    status of a photo it finds once, to done or to error, and never to
    processing; what marks the beginning of the extraction is the event's
    [processing] counter, incremented by one.  A photo that is not found
    has no status written. *)
Theorem process_photo_status_transitions (ex : Photos.executor)
    (pid eid : string) (env : job_env) (w : world) :
  let w' := Photos.run_job ex pid eid env w in
  match get_photo pid (db w) with
  | None => status_writes (db w') = status_writes (db w)
  | Some _ =>
      exists st p',
        (st = Done \/ st = Error) /\
        status_writes (db w') = status_writes (db w) ++ [(pid, st)] /\
        get_photo pid (db w') = Some p' /\ status p' = st /\
        Progress.processing (Progress.get_progress eid (progress_store w'))
        = (Progress.processing (Progress.get_progress eid (progress_store w)) + 1)%Z
  end.
Proof.
  cbv zeta. pose proof (run_job_db ex pid eid env w) as Hdb.
  destruct (get_photo pid (db w)) as [p|] eqn:Hp; [|now rewrite Hdb].
  destruct Hdb as (d & st & fc & ms & Hph & Hsw & Hst & ->).
  destruct (update_photo_status_found pid st fc ms d p) as [H1 (p' & H2 & H3 & _)];
    [unfold get_photo in *; now rewrite Hph|].
  exists st, p'. rewrite H1, Hsw. repeat split; auto.
  change Progress.get_progress with (fun e s => Progress.entry s e). cbv beta.
  destruct ex; simpl.
  - destruct (worker_process_photo_found pid eid env w p Hp)
      as (d0 & st0 & fc0 & ms0 & k & _ & _ & Hk & ->). simpl.
    rewrite !entry_update_progress.
    destruct Hk as [[_ ->]|[_ ->]]; reflexivity.
  - rewrite run_task_world.
    destruct (tasks_process_photo_found pid eid env w p Hp)
      as (d0 & st0 & fc0 & ms0 & _ & _ & [[_ Heq]|[_ Heq]]); rewrite Heq;
      unfold Tasks.on_success, Tasks.arg; simpl;
      destruct (decide (eid = "")); simpl; rewrite !entry_update_progress; reflexivity.
Qed.

(** C8. A photo whose extraction finds no face, the image being there, ends
    with status done and [face_count = 0], by either executor. *)
Theorem zero_faces_photo_is_done (ex : Photos.executor) (pid eid : string)
    (env : job_env) (w : world) (p : photo) (path : string) (cleanup : bool) :
  get_photo pid (db w) = Some p ->
  resolve_image env = Returned (path, cleanup) ->
  path_exists env = true ->
  FaceService.detect_and_encode (DeepFace_represent env) path = Returned [] ->
  exists p',
    get_photo pid (db (Photos.run_job ex pid eid env w)) = Some p' /\
    status p' = Done /\ face_count p' = 0%Z.
Proof.
  intros Hp Hres Hex Hde.
  assert (db (Photos.run_job ex pid eid env w)
          = update_photo_status pid Done 0 (Some (elapsed_ms env)) (db w)) as ->.
  { destruct ex; simpl.
    - unfold Worker.process_photo. rewrite Hp, Hres, Hex, Hde. reflexivity.
    - rewrite run_task_world, on_success_keeps_db.
      unfold Tasks.process_photo. rewrite Hp, Hres, Hex, Hde. reflexivity. }
  destruct (update_photo_status_found pid Done 0 (Some (elapsed_ms env)) (db w) p Hp)
    as [_ (p' & H1 & H2 & H3)].
  eauto.
Qed.

Lemma zero_faces_photo_is_done_witness :
  exists p',
    get_photo "p1"
      (db (Photos.run_job Photos.Celery "p1" "e1"
             (JobEnv (Returned ("/uploads/e1/a.jpg", false)) true
                (fun _ => Returned []) (fun _ => true) 12)
             (World (Db {[ "p1" := Photo "e1" "a.jpg" Pending 0 None None ]} [] ∅ []) ∅)))
    = Some p' /\
    status p' = Done /\ face_count p' = 0%Z.
Proof.
  apply (zero_faces_photo_is_done Photos.Celery "p1" "e1" _ _
           (Photo "e1" "a.jpg" Pending 0 None None) "/uploads/e1/a.jpg" false);
    reflexivity.
Defined.

(** C5. The claim asks that, the jobs of a batch being finished,
    [completed + failed = total], no outcome being counted twice.  A batch
    of one photo is uploaded and its job runs as a Celery task; the image
    file is missing when the job runs.  The task body counts the failure
    and returns, and [on_success] then counts a completion: the counters
    end at completed = 1, failed = 1, total = 1. *)
Theorem celery_counts_failure_twice :
  let w0 := World (Db ∅ [] ∅ []) ∅ in
  let upload := Photos.api_upload_photos 500 "e1" 0
                  [Photos.UploadItem true "a.jpg" "p1"] w0 in
  let env := JobEnv (Returned ("/uploads/e1/a.jpg", false)) false
               (fun _ => Returned []) (fun _ => true) 0 in
  let w2 := Photos.run_jobs Photos.Celery "e1" (fun _ => env) ["p1"] upload.2 in
  upload.1 = Returned ["p1"] /\
  Progress.get_progress "e1" (progress_store w2) = Progress.Counters 1 1 1 1 1 /\
  (get_photo "p1" (db w2)) = Some (Photo "e1" "a.jpg" Error 0 None None).
Proof. vm_compute. auto. Qed.

(** With the worker pool every outcome is counted once: the jobs of an
    accepted batch being finished, in any order,
    [completed + failed = total], and no counter is negative. *)
Lemma thread_pool_counts_each_outcome_once (LIMIT : Z) (eid : string) (pc : Z)
    (items : list Photos.upload_item) (w w1 : world) (ids order : list string)
    (env_of : string -> job_env) :
  Photos.api_upload_photos LIMIT eid pc items w = (Returned ids, w1) ->
  order ≡ₚ ids ->
  let c := Progress.get_progress eid
             (progress_store (Photos.run_jobs Photos.ThreadPool eid env_of order w1)) in
  (Progress.completed c + Progress.failed c = Progress.total c)%Z /\
  Progress.total c = Z.of_nat (length ids) /\
  (0 <= Progress.uploaded c)%Z /\ (0 <= Progress.processing c)%Z /\
  (0 <= Progress.completed c)%Z /\ (0 <= Progress.failed c)%Z /\
  (0 <= Progress.total c)%Z.
Proof.
  intros Hup Hperm. cbv zeta.
  destruct (api_upload_photos_counters _ _ _ _ _ _ _ Hup) as [Hc Hall].
  destruct (run_jobs_thread_pool_counters eid env_of order w1)
    as (H1 & H2 & H3 & H4 & H5 & H6).
  { intros id Hid. apply Hall. now rewrite <- Hperm. }
  change Progress.get_progress with (fun e s => Progress.entry s e). cbv beta.
  assert (length order = length ids) as Hlen by now rewrite Hperm.
  rewrite Hc, Hlen in *. simpl in *.
  repeat split; lia.
Qed.

End PipelineClaims.

(** ** The automatic retry *)

Section Retry.

Import Database AutoRetry.


Lemma set_retry_count_other (id pid : string) (n : nat) (d : database) :
  id <> pid -> photos (set_retry_count id n d) !! pid = photos d !! pid.
Proof.
  intros Hne. unfold set_retry_count.
  destruct (photos d !! id); [|reflexivity]. simpl. now rewrite lookup_insert_ne.
Qed.





(** In that sweep the other failed photo, never retried before, is
    scheduled with the first delay. *)
Lemma auto_retry_run :
  let d := Db {[ "p1" := Photo "e1" "a.jpg" Error 0 None (Some 3%nat);
                 "p2" := Photo "e1" "b.jpg" Error 0 None None ]} [] ∅ [] in
  let env := RetryEnv (fun _ => true) (fun _ => true) in
  broker (auto_retry_failed_photos "e1" env d []) = [ScheduledTask "p2" "e1" 300] /\
  skipped (auto_retry_failed_photos "e1" env d []) = ["p1"].
Proof. vm_compute. auto. Qed.

End Retry.

(* ===================================================================== *)
(** * Further properties of the code *)
(* ===================================================================== *)

(** ** The extractor's output *)

Section ExtractorOutput.

Import FaceService.

Lemma encode_result_wellformed (result : represent_result) :
  Forall (fun f => face_embedding f <> [] /\ length (location f) = 4%nat)
    (encode_result result) /\
  (length (encode_result result) <= 1)%nat /\
  (encode_result result = [] <-> default [] (rep_embedding result) = []).
Proof.
  unfold encode_result.
  destruct (default [] (rep_embedding result)) as [|x e] eqn:He; simpl.
  - repeat split; auto.
  - repeat split; auto; try discriminate.
Qed.

(** X1. [detect_and_encode] never raises, and every face it returns has a
    non-empty embedding and a location of four numbers; there is at most
    one face per result of the model. *)
Theorem detect_and_encode_faces_wellformed
    (represent : string -> py_result (list represent_result)) (path : string) :
  exists faces,
    detect_and_encode represent path = Returned faces /\
    Forall (fun f => face_embedding f <> [] /\ length (location f) = 4%nat) faces /\
    forall results, represent path = Returned results ->
                    (length faces <= length results)%nat.
Proof.
  unfold detect_and_encode. destruct (represent path) as [results|e].
  - eexists. split; [reflexivity|]. split.
    + induction results as [|r results IH]; simpl; [constructor|].
      apply Forall_app. split; [apply encode_result_wellformed|exact IH].
    + intros ? [= <-]. induction results as [|r results IH]; simpl; [lia|].
      rewrite length_app.
      pose proof (encode_result_wellformed r) as (_ & Hl & _). lia.
  - exists []. split; [reflexivity|]. split; [constructor|discriminate].
Qed.


(** X2. [encode_selfie] answers [None] exactly when the model raises or no
    result of the model carries a non-empty embedding; any embedding it
    returns is not empty. *)
Theorem encode_selfie_none_iff
    (represent : string -> py_result (list represent_result)) (path : string) :
  (encode_selfie represent path = Returned None <->
   (exists e, represent path = Raised e) \/
   (exists results, represent path = Returned results /\
      Forall (fun r => default [] (rep_embedding r) = []) results)) /\
  (forall v, encode_selfie represent path = Returned (Some v) -> v <> []).
Proof.
  unfold encode_selfie, detect_and_encode.
  destruct (represent path) as [results|e].
  - assert (concat (map encode_result results) = [] <->
            Forall (fun r => default [] (rep_embedding r) = []) results) as Hnil.
    { induction results as [|r results IH]; simpl.
      - split; auto.
      - pose proof (encode_result_wellformed r) as (_ & _ & Hr).
        rewrite Forall_cons. rewrite <- IH, <- Hr.
        split; [intros [? ?]%app_eq_nil; auto|intros [-> ->]; reflexivity]. }
    assert (Forall (fun f => face_embedding f <> []) (concat (map encode_result results)))
      as Hwf.
    { clear Hnil. induction results as [|r results IH]; simpl; [constructor|].
      apply Forall_app. split; [|exact IH].
      eapply Forall_impl; [apply encode_result_wellformed|]. intros f [H _]. exact H. }
    destruct (concat (map encode_result results)) as [|f faces].
    + split.
      * split; [intros _; right; exists results; split; [reflexivity|now apply Hnil]|auto].
      * discriminate.
    + split.
      * split; [discriminate|].
        intros [[e He]|(rs & [= <-] & Hall)]; [discriminate|].
        apply Hnil in Hall. discriminate.
      * intros v [= <-]. now apply Forall_inv in Hwf.
  - split; [|discriminate]. split; eauto.
Qed.

End ExtractorOutput.

(** ** Which photos the matcher returns *)

Section MatcherPhotos.

Import FaceService.

Lemma match_step_seen_mono (v : Np.ndarray) (n th : R)
    (st st' : list match_result * gset string) (s : stored_embedding) :
  match_step v n th st s = Np.Ok st' -> st.2 ⊆ st'.2.
Proof.
  intros [->|(c & _ & _ & _ & _ & ->)]%match_step_spec; [reflexivity|].
  simpl. set_solver.
Qed.

Lemma match_loop_seen_mono (v : Np.ndarray) (n th : R)
    (l : list stored_embedding) (st st' : list match_result * gset string) :
  match_loop v n th l st = Np.Ok st' -> st.2 ⊆ st'.2.
Proof.
  revert st; induction l as [|s l IH]; intros st; simpl.
  - now intros [= <-].
  - destruct (match_step v n th st s) as [st1| |] eqn:Hstep; simpl; try discriminate.
    intros Hloop. etransitivity; [eapply match_step_seen_mono, Hstep|now apply IH].
Qed.

(** After the loop the photo of every stored embedding that passes is
    among the photos seen. *)
Lemma match_loop_complete (v : Np.ndarray) (n th : R)
    (l : list stored_embedding) (st st' : list match_result * gset string)
    (s : stored_embedding) (c : R) :
  match_loop v n th l st = Np.Ok st' ->
  s ∈ l -> Np.linalg_norm (embedding s) <> 0 ->
  cosine_sim v n (embedding s) (Np.linalg_norm (embedding s)) = Np.Ok c ->
  th <= c ->
  photo_id s ∈ st'.2.
Proof.
  revert st; induction l as [|s0 l IH]; intros st Hloop Hin Hnz Hcos Hth.
  - inversion Hin.
  - simpl in Hloop.
    destruct (match_step v n th st s0) as [st1| |] eqn:Hstep; simpl in Hloop;
      try discriminate.
    apply elem_of_cons in Hin as [<-|Hin]; [|eapply IH; eauto].
    apply match_loop_seen_mono in Hloop. apply Hloop.
    destruct st as [matches seen]. unfold match_step in Hstep.
    destruct (Req_dec_T _ 0); [contradiction|]. rewrite Hcos in Hstep. simpl in Hstep.
    destruct (Rle_dec th c); [|contradiction].
    destruct (decide _) as [Hseen|_]; injection Hstep as <-; simpl;
      [exact Hseen|set_solver].
Qed.

(** The photos of the results, read off the stored embeddings. *)
Lemma find_matches_photos (T : R) (v : Np.ndarray)
    (l : list stored_embedding) (th : option R) (ms : list match_result)
    (id : string) :
  Np.linalg_norm v <> 0 ->
  find_matches T v l th = Np.Ok ms ->
  (id ∈ map match_photo_id ms <->
   exists s c, s ∈ l /\ photo_id s = id /\ Np.linalg_norm (embedding s) <> 0 /\
     cosine_sim v (Np.linalg_norm v) (embedding s) (Np.linalg_norm (embedding s))
       = Np.Ok c /\
     default T th <= c).
Proof.
  intros Hv Hfm. split.
  - intros (m & -> & Hm)%list_elem_of_fmap.
    pose proof (find_matches_admitted _ _ _ _ _ Hfm) as Hall.
    rewrite Forall_forall in Hall.
    destruct (Hall m Hm) as (_ & s & c & Hs & Hid & Hnz & Hcos & Hc & _).
    exists s, c. auto.
  - intros (s & c & Hs & <- & Hnz & Hcos & Hc).
    apply find_matches_inv in Hfm as [[Hz _]|(_ & st & Hloop & ->)]; [contradiction|].
    rewrite sort_by_similarity_desc_perm.
    destruct (match_loop_spec _ _ _ _ _ Hloop coherent_empty) as [[_ Hseen] _].
    apply Hseen. eapply match_loop_complete; eauto.
Qed.

(** X3. A photo is among the results exactly when the query has a
    non-zero norm and one of the photo's stored embeddings, of non-zero
    norm, has a cosine with the query that reaches the threshold: no photo
    that passes is lost, none is invented. *)
Theorem find_matches_photo_iff (T : R) (v : Np.ndarray)
    (l : list stored_embedding) (th : option R) (ms : list match_result)
    (id : string) :
  find_matches T v l th = Np.Ok ms ->
  (id ∈ map match_photo_id ms <->
   Np.linalg_norm v <> 0 /\
   exists s c, s ∈ l /\ photo_id s = id /\ Np.linalg_norm (embedding s) <> 0 /\
     cosine_sim v (Np.linalg_norm v) (embedding s) (Np.linalg_norm (embedding s))
       = Np.Ok c /\
     default T th <= c).
Proof.
  intros Hfm. destruct (Req_dec_T (Np.linalg_norm v) 0) as [Hz|Hnz].
  - apply find_matches_inv in Hfm as [[_ ->]|[Hnz _]]; [|contradiction].
    split; [intros Hin; inversion Hin|intros [Hnz _]; contradiction].
  - rewrite (find_matches_photos T v l th ms id Hnz Hfm). tauto.
Qed.

Lemma find_matches_photo_iff_witness :
  "p2" ∈ map match_photo_id [MatchResult "p2" 1; MatchResult "p1" (6 / 10)] <->
  Np.linalg_norm [1; 0] <> 0 /\
  exists s c,
    s ∈ [StoredEmbedding [3; 4] "p1"; StoredEmbedding [1; 0] "p2"] /\
    photo_id s = "p2" /\ Np.linalg_norm (embedding s) <> 0 /\
    cosine_sim [1; 0] (Np.linalg_norm [1; 0]) (embedding s)
      (Np.linalg_norm (embedding s)) = Np.Ok c /\
    default (4 / 10) None <= c.
Proof.
  apply (find_matches_photo_iff (4 / 10) [1; 0]
           [StoredEmbedding [3; 4] "p1"; StoredEmbedding [1; 0] "p2"] None).
  exact find_matches_run_two_photos.
Defined.

(** Whether the loop ends with a list does not depend on the threshold. *)
Lemma match_loop_ok_any_threshold (v : Np.ndarray) (n th th' : R)
    (l : list stored_embedding) (st st' st0 : list match_result * gset string) :
  match_loop v n th l st = Np.Ok st' ->
  exists st1, match_loop v n th' l st0 = Np.Ok st1.
Proof.
  revert st st0; induction l as [|s l IH]; intros st st0; simpl; [eauto|].
  destruct (match_step v n th st s) as [st2| |] eqn:Hstep; simpl; try discriminate.
  intros Hloop.
  assert (exists st3, match_step v n th' st0 s = Np.Ok st3) as [st3 ->].
  { destruct st as [m seen], st0 as [m0 seen0]. unfold match_step in *.
    destruct (Req_dec_T _ 0); [eauto|].
    destruct (cosine_sim _ _ _ _) as [c| |]; simpl in *; try discriminate.
    destruct (Rle_dec th' c); [destruct (decide (photo_id s ∈ seen0))|]; eauto. }
  simpl. eapply IH, Hloop.
Qed.

(** X4. Lowering the threshold never loses a photo: the matcher still
    returns a list, every photo returned at the higher threshold is
    returned at the lower one, and the list is at least as long. *)
Theorem find_matches_threshold_monotone (T : R) (v : Np.ndarray)
    (l : list stored_embedding) (lo hi : R) (ms_hi : list match_result) :
  lo <= hi ->
  find_matches T v l (Some hi) = Np.Ok ms_hi ->
  exists ms_lo,
    find_matches T v l (Some lo) = Np.Ok ms_lo /\
    (forall id, id ∈ map match_photo_id ms_hi -> id ∈ map match_photo_id ms_lo) /\
    (length ms_hi <= length ms_lo)%nat.
Proof.
  intros Hle Hhi.
  assert (exists ms_lo, find_matches T v l (Some lo) = Np.Ok ms_lo) as [ms_lo Hlo].
  { unfold find_matches in *. destruct (Req_dec_T _ 0); [eauto|].
    destruct (match_loop v _ (default T (Some hi)) l _) as [st| |] eqn:Hloop;
      simpl in Hhi; try discriminate.
    destruct (match_loop_ok_any_threshold v _ _ (default T (Some lo)) l _ _ ([], ∅) Hloop)
      as [st1 ->]. simpl. eauto. }
  exists ms_lo. split; [exact Hlo|].
  assert (forall id, id ∈ map match_photo_id ms_hi -> id ∈ map match_photo_id ms_lo)
    as Hsub.
  { intros id Hid. destruct (Req_dec_T (Np.linalg_norm v) 0) as [Hz|Hnz].
    - apply find_matches_inv in Hhi as [[_ ->]|[? _]]; [inversion Hid|contradiction].
    - rewrite (find_matches_photos _ _ _ _ _ id Hnz Hhi) in Hid.
      rewrite (find_matches_photos _ _ _ _ _ id Hnz Hlo).
      destruct Hid as (s & c & Hs & Hid & Hn & Hcos & Hc).
      exists s, c. simpl in *. repeat split; auto. lra. }
  split; [exact Hsub|].
  rewrite <- (length_map match_photo_id ms_hi), <- (length_map match_photo_id ms_lo).
  apply submseteq_length, NoDup_submseteq; [|exact Hsub].
  eapply find_matches_one_per_photo, Hhi.
Qed.

Lemma find_matches_threshold_monotone_witness :
  exists ms_lo,
    find_matches (4 / 10) [1; 0] [StoredEmbedding [5; 12] "p1"] (Some (1 / 10))
    = Np.Ok ms_lo /\
    (forall id, id ∈ map match_photo_id [MatchResult "p1" (3846 / 10000)] ->
                id ∈ map match_photo_id ms_lo) /\
    (length [MatchResult "p1" (3846 / 10000)] <= length ms_lo)%nat.
Proof.
  apply (find_matches_threshold_monotone (4 / 10) [1; 0]
           [StoredEmbedding [5; 12] "p1"] (1 / 10) (38461 / 100000)).
  - lra.
  - exact find_matches_run_rounded_down.
Defined.

End MatcherPhotos.

(** ** Normalising a vector *)

Section Normalisation.

Import FaceService Vectors.











End Normalisation.

(** ** The vector search *)

Section VectorSearch.

Import FaceService Vectors.

Lemma vector_step_spec (st : list match_result * gset string) (row : rpc_row) :
  vector_step st row = st \/
  exists id, rpc_photo_id row = Some id /\ id <> "" /\ (id ∉ st.2) /\
    vector_step st row =
      (st.1 ++ [MatchResult id (row_similarity row)], {[ id ]} ∪ st.2).
Proof.
  destruct st as [matches seen]. unfold vector_step.
  destruct (rpc_photo_id row) as [id|]; [|now left].
  destruct (bool_decide (id ≠ "")) eqn:H1; [|now left].
  destruct (bool_decide (id ∉ seen)) eqn:H2; [|now left].
  apply bool_decide_eq_true in H1, H2. right. exists id. simpl. auto.
Qed.

(** A row with an id that counts is seen after its step. *)
Lemma vector_step_sees (st : list match_result * gset string) (row : rpc_row)
    (id : string) :
  rpc_photo_id row = Some id -> id <> "" -> id ∈ (vector_step st row).2.
Proof.
  intros Hid Hne. destruct st as [matches seen]. unfold vector_step. rewrite Hid.
  rewrite (bool_decide_eq_true_2 _ Hne). simpl.
  destruct (bool_decide (id ∉ seen)) eqn:H2; simpl; [set_solver|].
  apply bool_decide_eq_false in H2. now apply dec_stable.
Qed.

Lemma vector_loop_seen_mono (rows : list rpc_row)
    (st : list match_result * gset string) :
  st.2 ⊆ (foldl vector_step st rows).2.
Proof.
  revert st; induction rows as [|row rows IH]; intros st; simpl; [reflexivity|].
  etransitivity; [|apply IH].
  destruct (vector_step_spec st row) as [->|(id & _ & _ & _ & ->)];
    [reflexivity|simpl; set_solver].
Qed.

Lemma best_first_snoc (l : list match_result) (m : match_result) :
  StronglySorted best_first l ->
  Forall (fun m0 => similarity m <= similarity m0) l ->
  StronglySorted best_first (l ++ [m]).
Proof.
  induction 1 as [|m0 l0 Hl0 IH Hall]; simpl; intros Hge.
  - repeat constructor.
  - constructor; [apply IH; now apply Forall_inv_tail in Hge|].
    apply Forall_app. split; [exact Hall|].
    constructor; [|constructor]. now apply Forall_inv in Hge.
Qed.

(** The loop over rows that come best first: the results stay coherent and
    best first, and a result added by the loop has a non-empty id not seen
    before and is at least as similar as every row with its id. *)
Lemma vector_loop_spec (rows : list rpc_row)
    (st : list match_result * gset string) :
  StronglySorted rows_best_first rows ->
  coherent st ->
  StronglySorted best_first st.1 ->
  Forall (fun m => Forall (fun row => row_similarity row <= similarity m) rows) st.1 ->
  let st' := foldl vector_step st rows in
  coherent st' /\ StronglySorted best_first st'.1 /\
  forall m, m ∈ st'.1 ->
    m ∈ st.1 \/
    (match_photo_id m <> "" /\ (match_photo_id m ∉ st.2) /\
     (exists row, row ∈ rows /\ rpc_photo_id row = Some (match_photo_id m) /\
                  similarity m = row_similarity row) /\
     forall row, row ∈ rows -> rpc_photo_id row = Some (match_photo_id m) ->
                 row_similarity row <= similarity m).
Proof.
  cbv zeta. revert st; induction rows as [|row rows IH]; intros st Hs Hc Hso Hge.
  - simpl. auto.
  - simpl. apply StronglySorted_inv in Hs as [Hs Hrow].
    assert (Forall (fun r => row_similarity r <= row_similarity row) rows) as Hrow'.
    { eapply Forall_impl; [exact Hrow|]. intros r Hr. now apply round4_mono. }
    destruct (vector_step_spec st row) as [Heq|(id & Hid & Hne & Hnew & Heq)].
    + rewrite Heq.
      destruct (IH st Hs Hc Hso) as (Hc' & Hso' & Hm).
      { eapply Forall_impl; [exact Hge|]. intros m Hf. now apply Forall_inv_tail in Hf. }
      split; [exact Hc'|]. split; [exact Hso'|].
      intros m Hin. destruct (Hm m Hin) as [?|(H1 & H2 & (r & Hr & Hrid & Hrs) & H4)];
        [now left|right].
      repeat split; auto.
      * exists r. split; [now right|auto].
      * intros r' [->|Hr']%elem_of_cons Hr'id; [|now apply H4].
        exfalso. apply H2. rewrite <- Heq. eapply vector_step_sees; eauto.
    + rewrite Heq.
      destruct (IH (st.1 ++ [MatchResult id (row_similarity row)], {[ id ]} ∪ st.2) Hs)
        as (Hc' & Hso' & Hm).
      * destruct Hc as [Hnd Hseen]. split; simpl.
        -- rewrite map_app. simpl. apply NoDup_app. split; [exact Hnd|].
           split; [|apply NoDup_singleton].
           intros x Hx Hx'%list_elem_of_singleton. subst x. now apply Hnew, Hseen.
        -- intros x. rewrite map_app, elem_of_app, elem_of_union, elem_of_singleton.
           simpl. rewrite list_elem_of_singleton, Hseen. tauto.
      * simpl. apply best_first_snoc; [exact Hso|].
        eapply Forall_impl; [exact Hge|]. intros m Hf. now apply Forall_inv in Hf.
      * simpl. apply Forall_app. split.
        -- eapply Forall_impl; [exact Hge|]. intros m Hf. now apply Forall_inv_tail in Hf.
        -- constructor; [exact Hrow'|constructor].
      * split; [exact Hc'|]. split; [exact Hso'|].
        intros m Hin.
        destruct (Hm m Hin) as [Hold|(H1 & H2 & (r & Hr & Hrid & Hrs) & H4)].
        -- simpl in Hold. apply elem_of_app in Hold as [?|Hm0%list_elem_of_singleton];
             [now left|subst m; right]. simpl.
           repeat split; auto.
           ++ exists row. split; [left|auto].
           ++ intros r' [->|Hr']%elem_of_cons _; [lra|].
              rewrite Forall_forall in Hrow'. now apply Hrow'.
        -- right. simpl in H2. repeat split; auto.
           ++ intros Hin2. apply H2, elem_of_union. now right.
           ++ exists r. split; [now right|auto].
           ++ intros r' [->|Hr']%elem_of_cons Hr'id; [|now apply H4].
              exfalso. apply H2. rewrite Hid in Hr'id. injection Hr'id as ->.
              apply elem_of_union. left. now apply elem_of_singleton.
Qed.

(** X8. With Supabase, the rows of the search arriving best first, the
    function returns each photo once, best first, and with the highest
    similarity among the rows of that photo. *)
Theorem find_matches_vector_keeps_best (T : R) (rows : list rpc_row)
    (stored : list stored_embedding) (selfie : Np.ndarray) (th : option R) :
  StronglySorted rows_best_first rows ->
  exists ms,
    find_matches_vector true T (Returned rows) stored selfie th
      = Returned (Np.Ok ms) /\
    NoDup (map match_photo_id ms) /\
    StronglySorted best_first ms /\
    forall m, m ∈ ms ->
      (exists row, row ∈ rows /\ rpc_photo_id row = Some (match_photo_id m) /\
                   similarity m = row_similarity row) /\
      forall row, row ∈ rows -> rpc_photo_id row = Some (match_photo_id m) ->
                  row_similarity row <= similarity m.
Proof.
  intros Hs. eexists. split; [reflexivity|].
  destruct (vector_loop_spec rows ([], ∅) Hs coherent_empty) as ([Hnd _] & Hso & Hm);
    [constructor|constructor|].
  split; [exact Hnd|]. split; [exact Hso|].
  intros m Hin. destruct (Hm m Hin) as [Hnil|(_ & _ & Hex & Hmax)]; [inversion Hnil|].
  auto.
Qed.

Lemma find_matches_vector_keeps_best_witness :
  let rows := [RpcRow (Some "p1") (Some 1); RpcRow (Some "p1") (Some (6 / 10))] in
  exists ms,
    find_matches_vector true (4 / 10) (Returned rows) [] [1; 0] None
      = Returned (Np.Ok ms) /\
    NoDup (map match_photo_id ms) /\
    StronglySorted best_first ms /\
    forall m, m ∈ ms ->
      (exists row, row ∈ rows /\ rpc_photo_id row = Some (match_photo_id m) /\
                   similarity m = row_similarity row) /\
      forall row, row ∈ rows -> rpc_photo_id row = Some (match_photo_id m) ->
                  row_similarity row <= similarity m.
Proof.
  cbv zeta. apply find_matches_vector_keeps_best.
  repeat constructor. unfold rows_best_first. simpl. lra.
Defined.

Lemma vector_loop_coherent (rows : list rpc_row)
    (st : list match_result * gset string) :
  coherent st -> coherent (foldl vector_step st rows).
Proof.
  revert st; induction rows as [|row rows IH]; intros st Hc; simpl; [exact Hc|].
  apply IH.
  destruct (vector_step_spec st row) as [->|(id & _ & _ & Hnew & ->)]; [exact Hc|].
  destruct Hc as [Hnd Hseen]. split; simpl.
  - rewrite map_app. simpl. apply NoDup_app. split; [exact Hnd|].
    split; [|apply NoDup_singleton].
    intros x Hx Hx'%list_elem_of_singleton. subst x. now apply Hnew, Hseen.
  - intros x. rewrite map_app, elem_of_app, elem_of_union, elem_of_singleton.
    simpl. rewrite list_elem_of_singleton, Hseen. tauto.
Qed.

(** X9. Whatever the search returns, rows in any order or a failure that
    sends the function to its fallback [find_matches], a list returned by
    [find_matches_vector] holds no photo twice and no photo with an empty
    id is added from the rows. *)
Theorem find_matches_vector_one_per_photo (use_supabase : bool) (T : R)
    (rpc : py_result (list rpc_row)) (stored : list stored_embedding)
    (selfie : Np.ndarray) (th : option R) (ms : list match_result) :
  find_matches_vector use_supabase T rpc stored selfie th = Returned (Np.Ok ms) ->
  NoDup (map match_photo_id ms) /\
  (forall rows, rpc = Returned rows -> Forall (fun m => match_photo_id m <> "") ms).
Proof.
  unfold find_matches_vector. destruct use_supabase; simpl; [|discriminate].
  destruct rpc as [rows|e].
  - intros [= <-]. split; [apply (vector_loop_coherent rows _ coherent_empty)|].
    intros ? [= <-].
    assert (forall st : list match_result * gset string,
              Forall (fun m => match_photo_id m <> "") st.1 ->
              Forall (fun m => match_photo_id m <> "") (foldl vector_step st rows).1)
      as Hall; [|apply Hall; constructor].
    induction rows as [|row rows IH]; intros st Hst; simpl; [exact Hst|].
    apply IH.
    destruct (vector_step_spec st row) as [->|(id & _ & Hne & _ & ->)]; [exact Hst|].
    simpl. apply Forall_app. split; [exact Hst|]. constructor; [exact Hne|constructor].
  - intros [= Hfm]. split; [eapply find_matches_one_per_photo, Hfm|discriminate].
Qed.

Lemma find_matches_vector_one_per_photo_witness :
  NoDup (map match_photo_id [MatchResult "p2" 1; MatchResult "p1" (6 / 10)]).
Proof.
  apply (find_matches_vector_one_per_photo true (4 / 10) (Raised "timeout")
           [StoredEmbedding [3; 4] "p1"; StoredEmbedding [1; 0] "p2"] [1; 0]
           (Some (4 / 10))).
  unfold find_matches_vector. simpl. f_equal. exact find_matches_run_two_photos.
Defined.

End VectorSearch.

(** ** The progress store *)

Section ProgressStore.

Import Progress.

Lemma add_to_commute (s1 s2 : progress_status) (n1 n2 : Z) (c : counters) :
  add_to s1 n1 (add_to s2 n2 c) = add_to s2 n2 (add_to s1 n1 c).
Proof. destruct s1, s2; simpl; f_equal; lia. Qed.

(** X10. Counter updates commute, on one event or on two, so the order in
    which jobs report does not matter for the counters; and an update, a
    reset or the setting of the total of one event leaves the counters of
    every other event as they are. *)
Theorem update_progress_commutes_and_frames :
  (forall (e1 e2 : string) (s1 s2 : progress_status) (n1 n2 : Z)
          (store : gmap string counters),
     update_progress e1 s1 n1 (update_progress e2 s2 n2 store) =
     update_progress e2 s2 n2 (update_progress e1 s1 n1 store)) /\
  (forall (e e' : string) (s : progress_status) (n : Z)
          (store : gmap string counters),
     e <> e' ->
     get_progress e' (update_progress e s n store) = get_progress e' store /\
     get_progress e' (reset_progress e store) = get_progress e' store /\
     get_progress e' (set_total e n store) = get_progress e' store).
Proof.
  split.
  - intros e1 e2 s1 s2 n1 n2 store. unfold update_progress.
    destruct (decide (e1 = e2)) as [->|Hne].
    + unfold entry. rewrite !lookup_insert_eq, !insert_insert_eq. simpl.
      now rewrite add_to_commute.
    + unfold entry. rewrite !lookup_insert_ne by congruence.
      now apply insert_insert_ne.
  - intros e e' s n store Hne.
    unfold get_progress, update_progress, reset_progress, set_total.
    now rewrite !lookup_insert_ne by exact Hne.
Qed.

Lemma update_progress_commutes_and_frames_witness :
  get_progress "e2" (update_progress "e1" Completed 1%Z ∅) = get_progress "e2" ∅ /\
  get_progress "e2" (reset_progress "e1" ∅) = get_progress "e2" ∅ /\
  get_progress "e2" (set_total "e1" 1%Z ∅) = get_progress "e2" ∅.
Proof.
  apply (proj2 update_progress_commutes_and_frames "e1" "e2" Completed 1%Z ∅).
  discriminate.
Defined.

End ProgressStore.

(** ** What a job leaves in the tables *)

Section JobEffects.

Import Database.

(** The loop over the faces writes the rows of the first [k] faces, [k]
    being the index of the first write that fails, or all of them. *)
Lemma save_faces_spec (ok : nat -> bool) (n : nat) (pid eid : string)
    (faces : list FaceService.face) (d : database) :
  exists k,
    (k <= length faces)%nat /\
    (save_faces ok n pid eid faces d).1 =
      Db (photos d) (face_embeddings d ++ face_rows pid eid (take k faces))
         (processed_count d) (status_writes d) /\
    ((save_faces ok n pid eid faces d).2 = true <-> k = length faces) /\
    (forall i, (i < k)%nat -> ok (n + i)%nat = true) /\
    ((k < length faces)%nat -> ok (n + k)%nat = false).
Proof.
  revert n d; induction faces as [|f faces IH]; intros n d; simpl.
  - exists 0%nat. simpl. rewrite app_nil_r. destruct d. repeat split; auto; lia.
  - destruct (ok n) eqn:Hok.
    + destruct (IH (S n) (save_face_embedding pid eid (FaceService.face_embedding f)
                            (FaceService.location f) d))
        as (k & Hk & Heq & Hsaved & Hlt & Hfail).
      exists (S k). split; [lia|]. split.
      { rewrite Heq. simpl. now rewrite <- app_assoc. }
      split; [rewrite Hsaved; lia|]. split.
      * intros [|i] Hi; [now rewrite Nat.add_0_r|].
        rewrite Nat.add_succ_r. apply (Hlt i). lia.
      * intros Hk'. rewrite Nat.add_succ_r. apply Hfail. lia.
    + exists 0%nat. simpl. rewrite app_nil_r, Nat.add_0_r. destruct d.
      repeat split; auto; try lia; try discriminate.
Qed.

Lemma run_job_db_eq (ex : Photos.executor) (pid eid : string) (env : job_env)
    (w : world) :
  db (Photos.run_job ex pid eid env w) = db (Worker.process_photo pid eid env w).
Proof.
  destruct ex; [reflexivity|]. simpl.
  rewrite run_task_world, on_success_keeps_db.
  unfold Tasks.process_photo, Worker.process_photo.
  destruct (get_photo pid (db w)); [|reflexivity].
  destruct (resolve_image env) as [[path cleanup]|e]; [|reflexivity].
  destruct (path_exists env); [|reflexivity]. simpl.
  destruct (FaceService.detect_and_encode _ path); [|reflexivity].
  destruct (save_faces _ _ _ _ _ _) as [d saved]. now destruct saved.
Qed.

(** X11. The two executors leave the same database.  A job on a photo
    that is found appends to the embedding table only rows of that photo
    and event; if it ends done, [face_count] is the number of rows it
    appended; if it ends in error, [face_count] is 0 while the rows written
    before the failure stay. *)
Theorem run_job_embeddings (ex : Photos.executor) (pid eid : string)
    (env : job_env) (w : world) (p : photo) :
  get_photo pid (db w) = Some p ->
  let d' := db (Photos.run_job ex pid eid env w) in
  d' = db (Photos.run_job Photos.ThreadPool pid eid env w) /\
  exists new p',
    face_embeddings d' = face_embeddings (db w) ++ new /\
    Forall (fun r => row_photo_id r = pid /\ row_event_id r = eid) new /\
    get_photo pid d' = Some p' /\
    (status p' = Done \/ status p' = Error) /\
    (status p' = Done -> face_count p' = Z.of_nat (length new)) /\
    (status p' = Error -> face_count p' = 0%Z).
Proof.
  intros Hp. cbv zeta. split; [apply run_job_db_eq|].
  rewrite run_job_db_eq. unfold Worker.process_photo. rewrite Hp.
  assert (forall d0 new st fc ms,
            photos d0 = photos (db w) ->
            face_embeddings d0 = face_embeddings (db w) ++ new ->
            face_embeddings (update_photo_status pid st fc ms d0)
              = face_embeddings (db w) ++ new /\
            exists p', get_photo pid (update_photo_status pid st fc ms d0) = Some p' /\
                       status p' = st /\ face_count p' = fc) as Hupd.
  { intros d0 new st fc ms Hph Hfe.
    destruct (update_photo_status_found pid st fc ms d0 p) as [_ Hex];
      [unfold get_photo in *; now rewrite Hph|].
    split; [|exact Hex].
    unfold update_photo_status. unfold get_photo in Hp. rewrite Hph, Hp. exact Hfe. }
  assert (forall new, Forall (fun r => row_photo_id r = pid /\ row_event_id r = eid)
                        (face_rows pid eid new)) as Hrows.
  { intros new. unfold face_rows. apply Forall_forall.
    intros r (f & -> & _)%list_elem_of_fmap. auto. }
  destruct (resolve_image env) as [[path cleanup]|e].
  2:{ destruct (Hupd (db w) [] Error 0%Z None eq_refl) as [H1 (p' & H2 & H3 & H4)];
        [now rewrite app_nil_r|].
      exists [], p'. simpl. repeat split; auto; congruence. }
  destruct (path_exists env); simpl.
  2:{ destruct (Hupd (db w) [] Error 0%Z None eq_refl) as [H1 (p' & H2 & H3 & H4)];
        [now rewrite app_nil_r|].
      exists [], p'. simpl. repeat split; auto; congruence. }
  destruct (detect_and_encode_never_raises (DeepFace_represent env) path) as [faces ->].
  destruct (save_faces_spec (save_ok env) 0 pid eid faces (db w))
    as (k & Hk & Heq & Hsaved & _ & _).
  destruct (save_faces (save_ok env) 0 pid eid faces (db w)) as [d saved].
  simpl in Heq, Hsaved. subst d. destruct saved; simpl.
  - assert (k = length faces) as -> by now apply Hsaved.
    rewrite firstn_all in *.
    destruct (Hupd (Db (photos (db w))
                      (face_embeddings (db w) ++ face_rows pid eid faces)
                      (processed_count (db w)) (status_writes (db w)))
                (face_rows pid eid faces) Done (Z.of_nat (length faces))
                (Some (elapsed_ms env)) eq_refl eq_refl) as [H1 (p' & H2 & H3 & H4)].
    exists (face_rows pid eid faces), p'. repeat split; auto.
    all: try congruence.
    intros _. rewrite H4. unfold face_rows. now rewrite length_map.
  - destruct (Hupd (Db (photos (db w))
                      (face_embeddings (db w) ++ face_rows pid eid (take k faces))
                      (processed_count (db w)) (status_writes (db w)))
                (face_rows pid eid (take k faces)) Error 0%Z None eq_refl eq_refl)
      as [H1 (p' & H2 & H3 & H4)].
    exists (face_rows pid eid (take k faces)), p'. repeat split; auto; congruence.
Qed.

Lemma run_job_embeddings_witness :
  let w := World (Db {[ "p1" := Photo "e1" "a.jpg" Pending 0 None None ]} [] ∅ []) ∅ in
  let env := JobEnv (Returned ("/uploads/e1/a.jpg", false)) true
               (fun _ => Returned []) (fun _ => true) 12 in
  let d' := db (Photos.run_job Photos.Celery "p1" "e1" env w) in
  d' = db (Photos.run_job Photos.ThreadPool "p1" "e1" env w) /\
  exists new p',
    face_embeddings d' = face_embeddings (db w) ++ new /\
    Forall (fun r => row_photo_id r = "p1" /\ row_event_id r = "e1") new /\
    get_photo "p1" d' = Some p' /\
    (status p' = Done \/ status p' = Error) /\
    (status p' = Done -> face_count p' = Z.of_nat (length new)) /\
    (status p' = Error -> face_count p' = 0%Z).
Proof.
  cbv zeta.
  apply (run_job_embeddings Photos.Celery "p1" "e1" _ _
           (Photo "e1" "a.jpg" Pending 0 None None)).
  reflexivity.
Defined.

(** The index at which the loop over the faces stops. *)
Lemma save_faces_stops_at (ok : nat -> bool) (pid eid : string)
    (faces : list FaceService.face) (d : database) (k : nat) :
  (forall i, (i < k)%nat -> ok i = true) ->
  ((k < length faces)%nat -> ok k = false) ->
  (k <= length faces)%nat ->
  save_faces ok 0 pid eid faces d =
    (Db (photos d) (face_embeddings d ++ face_rows pid eid (take k faces))
        (processed_count d) (status_writes d),
     bool_decide (k = length faces)).
Proof.
  intros Hlt Hfail Hle.
  destruct (save_faces_spec ok 0 pid eid faces d)
    as (k' & Hk' & Heq & Hsaved & Hlt' & Hfail').
  assert (k' = k) as ->.
  { simpl in Hlt', Hfail'.
    destruct (decide (k' < k)%nat) as [H1|H1].
    - specialize (Hlt k' H1). rewrite Hfail' in Hlt by lia. discriminate.
    - destruct (decide (k < k')%nat) as [H2|H2]; [|lia].
      specialize (Hlt' k H2). rewrite Hfail in Hlt' by lia.
      discriminate. }
  destruct (save_faces ok 0 pid eid faces d) as [d1 saved]. simpl in *.
  f_equal; [exact Heq|].
  destruct saved.
  - symmetry. apply bool_decide_eq_true. now apply Hsaved.
  - symmetry. apply bool_decide_eq_false. intros H. apply Hsaved in H. discriminate.
Qed.

(** X12. There is no rollback: when the write of the [k]-th face fails, the
    rows of the faces before it stay in the embedding table while the photo
    is marked error with [face_count = 0]. *)
Theorem failed_save_keeps_earlier_rows (ex : Photos.executor)
    (pid eid : string) (env : job_env) (w : world) (p : photo) (path : string)
    (cleanup : bool) (faces : list FaceService.face) (k : nat) :
  get_photo pid (db w) = Some p ->
  resolve_image env = Returned (path, cleanup) ->
  path_exists env = true ->
  FaceService.detect_and_encode (DeepFace_represent env) path = Returned faces ->
  (forall i, (i < k)%nat -> save_ok env i = true) ->
  save_ok env k = false ->
  (k < length faces)%nat ->
  let d' := db (Photos.run_job ex pid eid env w) in
  face_embeddings d' = face_embeddings (db w) ++ face_rows pid eid (take k faces) /\
  exists p', get_photo pid d' = Some p' /\ status p' = Error /\ face_count p' = 0%Z.
Proof.
  intros Hp Hres Hex Hde Hlt Hfail Hk. cbv zeta.
  rewrite run_job_db_eq. unfold Worker.process_photo.
  rewrite Hp, Hres, Hex, Hde. simpl.
  rewrite (save_faces_stops_at _ _ _ _ _ k) by (auto; lia).
  rewrite bool_decide_eq_false_2 by lia. simpl.
  destruct (update_photo_status_found pid Error 0 None
              (Db (photos (db w))
                  (face_embeddings (db w) ++ face_rows pid eid (take k faces))
                  (processed_count (db w)) (status_writes (db w))) p Hp)
    as [_ Hp'].
  split; [|exact Hp'].
  unfold update_photo_status. simpl. unfold get_photo in Hp. now rewrite Hp.
Qed.

Lemma failed_save_keeps_earlier_rows_witness :
  let faces := [FaceService.Face [1; 0] [0; 0; 10; 10]%Z;
                FaceService.Face [0; 1] [20; 0; 10; 10]%Z] in
  let represent := fun _ : string =>
    Returned [FaceService.RepresentResult (Some [1; 0])
                (Some {[ "w" := 10%Z; "h" := 10%Z ]});
              FaceService.RepresentResult (Some [0; 1])
                (Some {[ "x" := 20%Z; "w" := 10%Z; "h" := 10%Z ]})] in
  let env := JobEnv (Returned ("/uploads/e1/a.jpg", false)) true represent
               (fun i => bool_decide (i = 0%nat)) 12 in
  let w := World (Db {[ "p1" := Photo "e1" "a.jpg" Pending 0 None None ]} [] ∅ []) ∅ in
  let d' := db (Photos.run_job Photos.ThreadPool "p1" "e1" env w) in
  face_embeddings d' = face_embeddings (db w) ++ face_rows "p1" "e1" (take 1 faces) /\
  exists p', get_photo "p1" d' = Some p' /\ status p' = Error /\ face_count p' = 0%Z.
Proof.
  cbv zeta.
  apply (failed_save_keeps_earlier_rows Photos.ThreadPool "p1" "e1" _ _
           (Photo "e1" "a.jpg" Pending 0 None None) "/uploads/e1/a.jpg" false
           [FaceService.Face [1; 0] [0; 0; 10; 10]%Z;
            FaceService.Face [0; 1] [20; 0; 10; 10]%Z] 1%nat).
  - reflexivity.
  - reflexivity.
  - reflexivity.
  - reflexivity.
  - intros i Hi. assert (i = 0%nat) as -> by lia. reflexivity.
  - reflexivity.
  - simpl. lia.
Defined.

(** A run in which nothing fails. *)
Lemma run_job_success (ex : Photos.executor) (pid eid : string) (env : job_env)
    (w : world) (p : photo) (path : string) (cleanup : bool)
    (faces : list FaceService.face) :
  get_photo pid (db w) = Some p ->
  resolve_image env = Returned (path, cleanup) ->
  path_exists env = true ->
  FaceService.detect_and_encode (DeepFace_represent env) path = Returned faces ->
  (forall i, save_ok env i = true) ->
  db (Photos.run_job ex pid eid env w) =
    Db (<[pid := Photo (event_id p) (filename p) Done (Z.of_nat (length faces))
                   (Some (elapsed_ms env)) (retry_count p)]> (photos (db w)))
       (face_embeddings (db w) ++ face_rows pid eid faces)
       (<[event_id p := (default 0 (processed_count (db w) !! event_id p) + 1)%Z]>
          (processed_count (db w)))
       (status_writes (db w) ++ [(pid, Done)]).
Proof.
  intros Hp Hres Hex Hde Hok.
  rewrite run_job_db_eq. unfold Worker.process_photo.
  rewrite Hp, Hres, Hex, Hde. simpl.
  rewrite (save_faces_stops_at _ _ _ _ _ (length faces)) by (auto; lia).
  rewrite bool_decide_eq_true_2 by reflexivity. simpl.
  rewrite firstn_all. unfold update_photo_status. simpl.
  unfold get_photo in Hp. rewrite Hp. reflexivity.
Qed.

(** X13. Processing is not idempotent: a second successful run on the same
    photo, as a retry or a second submission makes it, appends the same
    embedding rows again and increments the event's [processed_count]
    again. *)
Theorem second_run_duplicates_embeddings (ex : Photos.executor)
    (pid eid : string) (env : job_env) (w : world) (p : photo) (path : string)
    (cleanup : bool) (faces : list FaceService.face) :
  get_photo pid (db w) = Some p ->
  resolve_image env = Returned (path, cleanup) ->
  path_exists env = true ->
  FaceService.detect_and_encode (DeepFace_represent env) path = Returned faces ->
  (forall i, save_ok env i = true) ->
  let w2 := Photos.run_job ex pid eid env (Photos.run_job ex pid eid env w) in
  face_embeddings (db w2) =
    face_embeddings (db w) ++ face_rows pid eid faces ++ face_rows pid eid faces /\
  processed_count (db w2) !! event_id p =
    Some (default 0 (processed_count (db w) !! event_id p) + 2)%Z.
Proof.
  intros Hp Hres Hex Hde Hok. cbv zeta.
  pose proof (run_job_success ex pid eid env w p path cleanup faces
                Hp Hres Hex Hde Hok) as H1.
  set (w1 := Photos.run_job ex pid eid env w) in *.
  assert (get_photo pid (db w1)
          = Some (Photo (event_id p) (filename p) Done (Z.of_nat (length faces))
                    (Some (elapsed_ms env)) (retry_count p))) as Hp1.
  { unfold get_photo. rewrite H1. simpl. apply lookup_insert_eq. }
  rewrite (run_job_success ex pid eid env w1 _ path cleanup faces Hp1 Hres Hex Hde Hok).
  simpl. rewrite H1. simpl. split; [now rewrite <- app_assoc|].
  rewrite !lookup_insert_eq. simpl. f_equal. lia.
Qed.

Lemma second_run_duplicates_embeddings_witness :
  let represent := fun _ : string =>
    Returned [FaceService.RepresentResult (Some [1; 0])
                (Some {[ "w" := 10%Z; "h" := 10%Z ]})] in
  let env := JobEnv (Returned ("/uploads/e1/a.jpg", false)) true represent
               (fun _ => true) 12 in
  let w := World (Db {[ "p1" := Photo "e1" "a.jpg" Pending 0 None None ]} [] ∅ []) ∅ in
  let faces := [FaceService.Face [1; 0] [0; 0; 10; 10]%Z] in
  let w2 := Photos.run_job Photos.Celery "p1" "e1" env
              (Photos.run_job Photos.Celery "p1" "e1" env w) in
  face_embeddings (db w2) =
    face_embeddings (db w) ++ face_rows "p1" "e1" faces ++ face_rows "p1" "e1" faces /\
  processed_count (db w2) !! "e1" =
    Some (default 0 (processed_count (db w) !! "e1") + 2)%Z.
Proof.
  cbv zeta.
  apply (second_run_duplicates_embeddings Photos.Celery "p1" "e1" _ _
           (Photo "e1" "a.jpg" Pending 0 None None) "/uploads/e1/a.jpg" false
           [FaceService.Face [1; 0] [0; 0; 10; 10]%Z]);
    reflexivity.
Defined.

End JobEffects.

(** ** The counters of a finished batch *)

Section BatchCounters.

Import Database.

Lemma count_status_cons (st : photo_status) (id : string) (ids : list string)
    (d : database) :
  count_status st (id :: ids) d =
    ((if decide (status <$> get_photo id d = Some st) then 1 else 0)
     + count_status st ids d)%Z.
Proof.
  unfold count_status. rewrite filter_cons.
  destruct (decide _); simpl length; lia.
Qed.


Lemma count_done_error_total (ids : list string) (d : database) :
  (forall id, id ∈ ids ->
     status <$> get_photo id d = Some Done \/ status <$> get_photo id d = Some Error) ->
  (count_status Done ids d + count_status Error ids d = Z.of_nat (length ids))%Z.
Proof.
  induction ids as [|id ids IH]; intros Hall; [reflexivity|].
  rewrite !count_status_cons, length_cons, Nat2Z.inj_succ.
  assert (count_status Done ids d + count_status Error ids d = Z.of_nat (length ids))%Z
    as IH' by (apply IH; intros i Hi; apply Hall; now right).
  destruct (Hall id) as [He|He]; [left| |]; rewrite He;
    repeat destruct (decide _); try congruence; lia.
Qed.

(** One job on a photo that is found. *)
Lemma run_job_step (ex : Photos.executor) (pid eid : string) (env : job_env)
    (w : world) :
  is_Some (get_photo pid (db w)) ->
  (ex = Photos.Celery -> eid <> "") ->
  let w' := Photos.run_job ex pid eid env w in
  let c := Progress.entry (progress_store w) eid in
  let c' := Progress.entry (progress_store w') eid in
  exists st,
    (st = Done \/ st = Error) /\
    status <$> get_photo pid (db w') = Some st /\
    (forall id, id <> pid -> get_photo id (db w') = get_photo id (db w)) /\
    Progress.uploaded c' = Progress.uploaded c /\
    Progress.total c' = Progress.total c /\
    Progress.processing c' = (Progress.processing c + 1)%Z /\
    Progress.failed c' = (Progress.failed c + if decide (st = Error) then 1 else 0)%Z /\
    Progress.completed c' =
      (Progress.completed c +
       match ex with
       | Photos.ThreadPool => if decide (st = Done) then 1 else 0
       | Photos.Celery => 1
       end)%Z.
Proof.
  intros [p Hp] Heid. cbv zeta.
  assert (forall d st fc ms,
            photos d = photos (db w) ->
            status <$> get_photo pid (update_photo_status pid st fc ms d) = Some st /\
            forall id, id <> pid ->
              get_photo id (update_photo_status pid st fc ms d) = get_photo id (db w))
    as Hdb.
  { intros d st fc ms Hph. unfold get_photo, update_photo_status in *.
    rewrite Hph, Hp. simpl. rewrite lookup_insert_eq. split; [reflexivity|].
    intros id Hne. now rewrite lookup_insert_ne. }
  destruct ex; simpl.
  - destruct (worker_process_photo_found pid eid env w p Hp)
      as (d & st & fc & ms & k & Hph & _ & Hk & ->). simpl.
    destruct (Hdb d st fc ms Hph) as [H1 H2].
    exists st. rewrite !entry_update_progress.
    destruct Hk as [[-> ->]|[-> ->]]; simpl; repeat split; auto; lia.
  - rewrite run_task_world, on_success_counts_completed by auto.
    destruct (tasks_process_photo_found pid eid env w p Hp)
      as (d & st & fc & ms & Hph & _ & [[-> Heq]|[-> Heq]]); rewrite Heq; simpl.
    + destruct (Hdb d Error fc ms Hph) as [H1 H2].
      exists Error. rewrite !entry_update_progress. simpl. repeat split; auto; lia.
    + destruct (Hdb d Done fc ms Hph) as [H1 H2].
      exists Done. rewrite !entry_update_progress. simpl. repeat split; auto; lia.
Qed.

(** The jobs of distinct photos that are all found. *)
Lemma run_jobs_counters (ex : Photos.executor) (eid : string)
    (env_of : string -> job_env) (order : list string) (w : world) :
  NoDup order ->
  (forall id, id ∈ order -> is_Some (get_photo id (db w))) ->
  (ex = Photos.Celery -> eid <> "") ->
  let w' := Photos.run_jobs ex eid env_of order w in
  let c := Progress.entry (progress_store w) eid in
  let c' := Progress.entry (progress_store w') eid in
  (forall id, id ∉ order -> get_photo id (db w') = get_photo id (db w)) /\
  (forall id, id ∈ order ->
     status <$> get_photo id (db w') = Some Done \/
     status <$> get_photo id (db w') = Some Error) /\
  Progress.uploaded c' = Progress.uploaded c /\
  Progress.total c' = Progress.total c /\
  Progress.processing c' = (Progress.processing c + Z.of_nat (length order))%Z /\
  Progress.failed c' = (Progress.failed c + count_status Error order (db w'))%Z /\
  Progress.completed c' = (Progress.completed c + completions ex order (db w'))%Z.
Proof.
  cbv zeta. intros Hnd. revert w; induction Hnd as [|pid order Hpid Hnd IH];
    intros w Hall Heid.
  - simpl. unfold completions, count_status. simpl.
    repeat split; auto; try lia; [intros id Hid; inversion Hid|destruct ex; simpl; lia].
  - cbn [Photos.run_jobs].
    destruct (run_job_step ex pid eid (env_of pid) w) as
      (st & Hst & Hs1 & Hother & U1 & T1 & P1 & F1 & C1);
      [apply Hall; left|exact Heid|].
    set (w1 := Photos.run_job ex pid eid (env_of pid) w) in *.
    destruct (IH w1) as (Hout & Hin & U2 & T2 & P2 & F2 & C2); [|exact Heid|].
    { intros id Hid. rewrite Hother; [apply Hall; now right|]. intros ->. contradiction. }
    set (w' := Photos.run_jobs ex eid env_of order w1) in *.
    assert (status <$> get_photo pid (db w') = Some st) as Hfinal
      by (rewrite Hout; auto).
    split; [|split].
    + intros id Hid. apply not_elem_of_cons in Hid as [Hne Hid].
      rewrite Hout, Hother; auto.
    + intros id [->|Hid]%elem_of_cons; [|now apply Hin].
      rewrite Hfinal. destruct Hst as [-> | ->]; auto.
    + rewrite U2, T2, P2, F2, C2, U1, T1, P1, F1, C1.
      rewrite count_status_cons, Hfinal. rewrite length_cons, Nat2Z.inj_succ.
      repeat split; try lia.
      * destruct Hst as [-> | ->]; repeat destruct (decide _); try congruence; lia.
      * destruct ex; unfold completions; [rewrite count_status_cons, Hfinal|];
          simpl length; destruct Hst as [-> | ->];
          repeat destruct (decide _); try congruence; lia.
Qed.

(** X14. With the worker pool, the jobs of an accepted batch of distinct
    photos being finished, in any order: every photo of the batch is done
    or in error, [uploaded = processing = total] is the size of the batch,
    [failed] is the number of its photos in error and [completed] the
    number of its photos done, so [completed + failed = total]. *)
Theorem thread_pool_batch_final (LIMIT : Z) (eid : string) (pc : Z)
    (items : list Photos.upload_item) (w w1 : world) (ids order : list string)
    (env_of : string -> job_env) :
  Photos.api_upload_photos LIMIT eid pc items w = (Returned ids, w1) ->
  NoDup ids -> order ≡ₚ ids ->
  let w' := Photos.run_jobs Photos.ThreadPool eid env_of order w1 in
  let c := Progress.get_progress eid (progress_store w') in
  (forall id, id ∈ ids ->
     status <$> get_photo id (db w') = Some Done \/
     status <$> get_photo id (db w') = Some Error) /\
  Progress.uploaded c = Z.of_nat (length ids) /\
  Progress.processing c = Z.of_nat (length ids) /\
  Progress.total c = Z.of_nat (length ids) /\
  Progress.failed c = count_status Error ids (db w') /\
  Progress.completed c = count_status Done ids (db w') /\
  (Progress.completed c + Progress.failed c = Progress.total c)%Z.
Proof.
  intros Hup Hnd Hperm. cbv zeta.
  destruct (api_upload_photos_counters _ _ _ _ _ _ _ Hup) as [Hc Hall].
  destruct (run_jobs_counters Photos.ThreadPool eid env_of order w1)
    as (_ & Hin & U & T & P & F & C); [now rewrite Hperm| |discriminate|].
  { intros id Hid. apply Hall. now rewrite <- Hperm. }
  cbv zeta in *. change Progress.get_progress with (fun e s => Progress.entry s e).
  cbv beta. rewrite Hc in *. simpl in *.
  assert (length order = length ids) as Hlen by now rewrite Hperm.
  assert (forall st d, count_status st order d = count_status st ids d) as Hcount.
  { intros st d. unfold count_status. now rewrite Hperm. }
  rewrite Hcount in F, C. rewrite Hlen in P.
  unfold completions in C.
  split; [intros id Hid; apply Hin; now rewrite Hperm|].
  split; [lia|]. split; [lia|]. split; [lia|]. split; [lia|]. split; [lia|].
  rewrite F, C, T, !Z.add_0_l. apply count_done_error_total.
  intros id Hid. apply Hin. now rewrite Hperm.
Qed.

Lemma thread_pool_batch_final_witness :
  let w := World (Db ∅ [] ∅ []) ∅ in
  let items := [Photos.UploadItem true "a.jpg" "p1";
                Photos.UploadItem true "b.jpg" "p2"] in
  let env_of := fun id : string =>
    JobEnv (Returned ("/uploads/e1/x.jpg", false)) (bool_decide (id = "p1"))
      (fun _ => Returned []) (fun _ => true) 12 in
  let w1 := (Photos.api_upload_photos 500 "e1" 0 items w).2 in
  let w' := Photos.run_jobs Photos.ThreadPool "e1" env_of ["p2"; "p1"] w1 in
  let c := Progress.get_progress "e1" (progress_store w') in
  (forall id, id ∈ ["p1"; "p2"] ->
     status <$> get_photo id (db w') = Some Done \/
     status <$> get_photo id (db w') = Some Error) /\
  Progress.uploaded c = Z.of_nat (length ["p1"; "p2"]) /\
  Progress.processing c = Z.of_nat (length ["p1"; "p2"]) /\
  Progress.total c = Z.of_nat (length ["p1"; "p2"]) /\
  Progress.failed c = count_status Error ["p1"; "p2"] (db w') /\
  Progress.completed c = count_status Done ["p1"; "p2"] (db w') /\
  (Progress.completed c + Progress.failed c = Progress.total c)%Z.
Proof.
  cbv zeta.
  apply (thread_pool_batch_final 500 "e1" 0
           [Photos.UploadItem true "a.jpg" "p1"; Photos.UploadItem true "b.jpg" "p2"]
           (World (Db ∅ [] ∅ []) ∅)).
  - vm_compute. reflexivity.
  - repeat constructor; set_unfold; intuition discriminate.
  - apply Permutation_swap.
Defined.



End BatchCounters.

(** ** Submitting a job *)

Section Submission.

Import TaskQueue.

(** X16. A submission that returns has handed the job to exactly one
    executor, the broker when a task id is returned and the pool when
    [None] is; one that raises has handed it to none.  It raises only when
    the pool was not started and Celery was not used or refused the task;
    after [start_worker] it never raises. *)
Theorem submit_photo_exactly_one (use_redis : bool) (broker : py_result string)
    (pid eid : string) (q : executors) :
  let r := (submit_photo use_redis broker pid eid q).1 in
  let q' := (submit_photo use_redis broker pid eid q).2 in
  match r with
  | Returned (Some task_id) =>
      use_redis = true /\ broker = Returned task_id /\
      celery_jobs q' = celery_jobs q ++ [(pid, eid)] /\ pool_jobs q' = pool_jobs q
  | Returned None =>
      pool_started q = true /\
      pool_jobs q' = pool_jobs q ++ [(pid, eid)] /\ celery_jobs q' = celery_jobs q
  | Raised _ =>
      pool_started q = false /\ q' = q /\
      (use_redis = false \/ exists e, broker = Raised e)
  end /\
  forall q0, exists o,
    (submit_photo use_redis broker pid eid (start_worker q0)).1 = Returned o.
Proof.
  cbv zeta. split.
  - unfold submit_photo, pool_submit_photo.
    destruct use_redis; [destruct broker as [tid|e]|]; simpl; auto;
      destruct (pool_started q) eqn:Hs; simpl; eauto 6.
  - intros q0. unfold submit_photo, pool_submit_photo, start_worker.
    destruct use_redis; [destruct broker|]; simpl; eauto.
Qed.

End Submission.

(** ** The retry on demand *)

Section OnDemandRetry.

Import Database ManualRetry.

Lemma failed_rows_spec (eid : string) (d : database) (id : string) (ph : photo) :
  (id, ph) ∈ failed_rows eid d <->
  photos d !! id = Some ph /\ status ph = Error /\ event_id ph = eid.
Proof.
  unfold failed_rows, get_photos_for_event.
  rewrite !list_elem_of_filter, elem_of_map_to_list. simpl. tauto.
Qed.

Lemma NoDup_fst_filter {A B : Type} (P : A * B -> Prop)
    `{forall x, Decision (P x)} (l : list (A * B)) :
  NoDup l.*1 -> NoDup (filter P l).*1.
Proof.
  induction l as [|x l IH]; simpl; [auto|].
  intros [Hx Hl]%NoDup_cons. rewrite filter_cons.
  destruct (decide (P x)); [|auto]. simpl. apply NoDup_cons. split; [|auto].
  intros (y & Hy1 & Hy2)%list_elem_of_fmap. apply Hx.
  apply list_elem_of_fmap. exists y. split; [exact Hy1|].
  now apply list_elem_of_filter in Hy2 as [_ ?].
Qed.

Lemma failed_rows_NoDup (eid : string) (d : database) :
  NoDup (failed_rows eid d).*1.
Proof.
  unfold failed_rows, get_photos_for_event.
  do 2 apply NoDup_fst_filter. apply NoDup_fst_map_to_list.
Qed.



(** What the loop hands to the broker: a task per row, in order, up to the
    first row the broker refuses. *)
Lemma schedule_all_spec (ok : string -> bool) (eid : string)
    (rows : list (string * photo)) (queue : list (string * string)) :
  exists k,
    (k <= length rows)%nat /\
    (schedule_all ok eid rows queue).2 =
      queue ++ map (fun r => (r.1, eid)) (take k rows) /\
    match (schedule_all ok eid rows queue).1 with
    | Returned n => n = length rows /\ k = length rows
    | Raised _ => (k < length rows)%nat /\
                  exists r, rows !! k = Some r /\ ok r.1 = false
    end.
Proof.
  revert queue; induction rows as [|[id ph] rows IH]; intros queue; simpl.
  - exists 0%nat. simpl. rewrite app_nil_r. auto.
  - destruct (ok id) eqn:Hok.
    + destruct (IH (queue ++ [(id, eid)])) as (k & Hk & Hq & Hr).
      destruct (schedule_all ok eid rows (queue ++ [(id, eid)])) as [[n|e] q'];
        simpl in *; exists (S k); (split; [lia|]);
        (split; [rewrite Hq; simpl; now rewrite <- app_assoc|]).
      * destruct Hr as [-> ->]. auto.
      * destruct Hr as [Hlt Hex]. split; [lia|exact Hex].
    + exists 0%nat. simpl. rewrite app_nil_r. split; [lia|]. split; [reflexivity|].
      split; [lia|]. exists (id, ph). auto.
Qed.


(** X18. The retry on demand does not look at [retry_count]: with a limit
    that covers the failed photos of the event and a broker that accepts,
    a photo in error gets a task even when its automatic retries are
    exhausted. *)
Theorem retry_failed_photos_ignores_retry_count (eid : string) (limit : Z)
    (ok : string -> bool) (d : database) (queue : list (string * string))
    (pid : string) (p : photo) :
  (forall id, ok id = true) ->
  (Z.of_nat (length (failed_rows eid d)) <= limit)%Z ->
  photos d !! pid = Some p -> status p = Error -> event_id p = eid ->
  (pid, eid) ∈ (retry_failed_photos eid limit ok d queue).2.
Proof.
  intros Hok Hlim Hp Hst Hev. unfold retry_failed_photos. fold (failed_rows eid d).
  assert (slice_to (failed_rows eid d) limit = failed_rows eid d) as ->.
  { unfold slice_to. rewrite bool_decide_eq_true_2 by lia. apply take_ge. lia. }
  destruct (schedule_all_spec ok eid (failed_rows eid d) queue) as (k & Hk & -> & Hr).
  destruct (schedule_all ok eid (failed_rows eid d) queue).1 as [n|e].
  - destruct Hr as [_ ->]. rewrite firstn_all. apply elem_of_app. right.
    apply list_elem_of_fmap. exists (pid, p). split; [reflexivity|].
    now apply failed_rows_spec.
  - destruct Hr as [_ (r & _ & Hr)]. rewrite Hok in Hr. discriminate.
Qed.

Lemma retry_failed_photos_ignores_retry_count_witness :
  let d := Db {[ "p1" := Photo "e1" "a.jpg" Error 0 None (Some 3%nat) ]} [] ∅ [] in
  ("p1", "e1") ∈ (retry_failed_photos "e1" 10 (fun _ => true) d []).2.
Proof.
  cbv zeta.
  apply (retry_failed_photos_ignores_retry_count "e1" 10 (fun _ => true) _ []
           "p1" (Photo "e1" "a.jpg" Error 0 None (Some 3%nat)));
    try reflexivity.
  vm_compute. discriminate.
Defined.

End OnDemandRetry.

(** ** The automatic retry, sweep after sweep *)

Section RetryBudget.

Import Database AutoRetry Schedule.

Lemma tasks_of_app (pid : string) (q1 q2 : list scheduled_task) :
  tasks_of pid (q1 ++ q2) = (tasks_of pid q1 + tasks_of pid q2)%nat.
Proof. unfold tasks_of. now rewrite filter_app, length_app. Qed.

(** A step on the row of another photo. *)
Lemma retry_step_other (eid : string) (env : retry_env) (s : sweep)
    (row : string * photo) (pid : string) :
  row.1 <> pid ->
  tasks_of pid (broker (retry_step eid env s row)) = tasks_of pid (broker s) /\
  photos (table (retry_step eid env s row)) !! pid = photos (table s) !! pid.
Proof.
  destruct row as [id ph]. simpl. intros Hne. unfold retry_step.
  destruct (bool_decide _); [auto|].
  destruct (apply_async_ok env id); [|auto]. simpl.
  rewrite tasks_of_app. unfold tasks_of at 2. simpl.
  rewrite filter_cons, decide_False by (simpl; exact Hne). simpl. split; [lia|].
  destruct (update_ok env id); [|reflexivity]. now apply set_retry_count_other.
Qed.

Lemma retry_loop_absent (eid : string) (env : retry_env)
    (rows : list (string * photo)) (s : sweep) (pid : string) :
  pid ∉ rows.*1 ->
  tasks_of pid (broker (foldl (retry_step eid env) s rows)) = tasks_of pid (broker s) /\
  photos (table (foldl (retry_step eid env) s rows)) !! pid = photos (table s) !! pid.
Proof.
  revert s; induction rows as [|row rows IH]; intros s Hnot; simpl; [auto|].
  simpl in Hnot. apply not_elem_of_cons in Hnot as [Hne Hnot].
  destruct (IH (retry_step eid env s row) Hnot) as [-> ->].
  apply retry_step_other. congruence.
Qed.

(** The step on the row of the photo itself, a photo in error. *)
Lemma retry_step_self (eid : string) (env : retry_env) (s : sweep)
    (pid : string) (p : photo) :
  photos (table s) !! pid = Some p ->
  let go := bool_decide (default 0%nat (retry_count p) < MAX_RETRIES)%nat
            && apply_async_ok env pid in
  tasks_of pid (broker (retry_step eid env s (pid, p))) =
    (tasks_of pid (broker s) + if go then 1 else 0)%nat /\
  photos (table (retry_step eid env s (pid, p))) !! pid =
    Some (if go && update_ok env pid then retried_once p else p).
Proof.
  intros Hp. cbv zeta. unfold retry_step.
  destruct (bool_decide (MAX_RETRIES <= _)%nat) eqn:Hmax.
  - apply bool_decide_eq_true in Hmax.
    rewrite bool_decide_eq_false_2 by lia. simpl. split; [lia|exact Hp].
  - apply bool_decide_eq_false in Hmax.
    rewrite bool_decide_eq_true_2 by lia. simpl.
    destruct (apply_async_ok env pid); simpl; [|split; [lia|exact Hp]].
    rewrite tasks_of_app. unfold tasks_of at 2. simpl.
    rewrite filter_cons, decide_True by reflexivity. simpl. split; [lia|].
    destruct (update_ok env pid); [|exact Hp].
    unfold set_retry_count. rewrite Hp. simpl. now rewrite lookup_insert_eq.
Qed.

(** One sweep, seen from one photo: it gets a task exactly when it is
    eligible and the broker accepts, and its [retry_count] goes up by one
    when moreover the UPDATE succeeds. *)
Lemma sweep_effect (eid : string) (env : retry_env) (d : database)
    (queue : list scheduled_task) (pid : string) (p : photo) :
  photos d !! pid = Some p ->
  let s := auto_retry_failed_photos eid env d queue in
  let go := eligible eid p && apply_async_ok env pid in
  tasks_of pid (broker s) = (tasks_of pid queue + if go then 1 else 0)%nat /\
  photos (table s) !! pid =
    Some (if go && update_ok env pid then retried_once p else p).
Proof.
  intros Hp. cbv zeta.
  change (auto_retry_failed_photos eid env d queue)
    with (foldl (retry_step eid env) (Sweep d queue [] []) (failed_rows eid d)).
  pose proof (failed_rows_NoDup eid d) as Hnd.
  pose proof (failed_rows_spec eid d pid p) as Hspec.
  assert ((pid, p) ∈ failed_rows eid d \/ (pid, p) ∉ failed_rows eid d) as [Hin|Hnin].
  { destruct (decide (status p = Error)) as [H1|H1];
      [destruct (decide (event_id p = eid)) as [H2|H2]|].
    - left. apply Hspec. auto.
    - right. intros H. apply Hspec in H. tauto.
    - right. intros H. apply Hspec in H. tauto. }
  - apply Hspec in Hin as Hfacts. destruct Hfacts as (_ & Hst & Hev).
    apply list_elem_of_split in Hin as (l1 & l2 & Hl). rewrite Hl in *.
    rewrite fmap_app, fmap_cons in Hnd. simpl in Hnd.
    apply NoDup_app in Hnd as (_ & Hdis & [Hl2 _]%NoDup_cons).
    assert (pid ∉ l1.*1) as Hl1.
    { intros Hx. apply (Hdis pid Hx). left. }
    rewrite foldl_app. cbn [foldl].
    destruct (retry_loop_absent eid env l1 (Sweep d queue [] []) pid Hl1) as [T1 P1].
    simpl in T1, P1.
    destruct (retry_step_self eid env (foldl (retry_step eid env) (Sweep d queue [] []) l1)
                pid p) as [T2 P2]; [now rewrite P1|].
    destruct (retry_loop_absent eid env l2
                (retry_step eid env (foldl (retry_step eid env) (Sweep d queue [] []) l1)
                   (pid, p)) pid Hl2) as [T3 P3].
    rewrite T3, P3, T2, P2, T1. unfold eligible.
    rewrite (bool_decide_eq_true_2 _ Hev), (bool_decide_eq_true_2 _ Hst). simpl. auto.
  - assert (pid ∉ (failed_rows eid d).*1) as Habs.
    { intros ([id ph] & Hid & Hrow)%list_elem_of_fmap. simpl in Hid. subst id.
      apply Hnin. apply failed_rows_spec in Hrow as Hf. destruct Hf as (Hlk & _).
      rewrite Hp in Hlk. injection Hlk as <-. exact Hrow. }
    destruct (retry_loop_absent eid env _ (Sweep d queue [] []) pid Habs) as [-> ->].
    simpl. assert (eligible eid p = false) as ->.
    { unfold eligible. destruct (bool_decide (event_id p = eid)) eqn:H1; [|reflexivity].
      destruct (bool_decide (status p = Error)) eqn:H2; [|reflexivity].
      apply bool_decide_eq_true in H1, H2. exfalso. apply Hnin, Hspec. auto. }
    simpl. split; [lia|exact Hp].
Qed.

(** X19. One sweep hands out at most one task for a photo, and exactly one
    when the photo is of the event, in error, with fewer than [MAX_RETRIES]
    retries recorded, and the broker accepts the task; the [retry_count]
    of the photo goes up by one when moreover the UPDATE succeeds, and the
    row is otherwise left as it was. *)
Theorem auto_retry_schedules_once (eid : string) (env : retry_env)
    (d : database) (queue : list scheduled_task) (pid : string) (p : photo) :
  photos d !! pid = Some p ->
  let s := auto_retry_failed_photos eid env d queue in
  (tasks_of pid (broker s) <= S (tasks_of pid queue))%nat /\
  (tasks_of pid (broker s) = S (tasks_of pid queue) <->
   eligible eid p = true /\ apply_async_ok env pid = true) /\
  (tasks_of pid (broker s) = tasks_of pid queue <->
   eligible eid p = false \/ apply_async_ok env pid = false) /\
  photos (table s) !! pid =
    Some (if eligible eid p && apply_async_ok env pid && update_ok env pid
          then retried_once p else p).
Proof.
  intros Hp. cbv zeta.
  destruct (sweep_effect eid env d queue pid p Hp) as [HT HP].
  rewrite HT. split; [|split; [|split; [|exact HP]]].
  - destruct (eligible eid p && apply_async_ok env pid); lia.
  - destruct (eligible eid p), (apply_async_ok env pid); simpl; split;
      try lia; try tauto; intros [? ?]; discriminate.
  - destruct (eligible eid p), (apply_async_ok env pid); simpl; split;
      try lia; auto; intros [?|?]; discriminate.
Qed.

Lemma auto_retry_schedules_once_witness :
  let d := Db {[ "p1" := Photo "e1" "a.jpg" Error 0 None (Some 3%nat);
                 "p2" := Photo "e1" "b.jpg" Error 0 None None ]} [] ∅ [] in
  let env := RetryEnv (fun _ => true) (fun _ => true) in
  let p := Photo "e1" "b.jpg" Error 0 None None in
  let s := auto_retry_failed_photos "e1" env d [] in
  (tasks_of "p2" (broker s) <= S (tasks_of "p2" []))%nat /\
  (tasks_of "p2" (broker s) = S (tasks_of "p2" []) <->
   eligible "e1" p = true /\ apply_async_ok env "p2" = true) /\
  (tasks_of "p2" (broker s) = tasks_of "p2" [] <->
   eligible "e1" p = false \/ apply_async_ok env "p2" = false) /\
  photos (table s) !! "p2" =
    Some (if eligible "e1" p && apply_async_ok env "p2" && update_ok env "p2"
          then retried_once p else p).
Proof.
  cbv zeta.
  apply (auto_retry_schedules_once "e1" _ _ [] "p2"). reflexivity.
Defined.




(** X21. When the UPDATE of [retry_count] fails, as it does when the
    column or the connection pool is missing, the exception is only
    logged and nothing is recorded: a photo that stays in error is
    scheduled again by every sweep, without bound. *)
Theorem sweeps_without_update_never_stop (n : nat) (eid : string)
    (env : retry_env) (d : database) (queue : list scheduled_task)
    (pid : string) (p : photo) :
  photos d !! pid = Some p ->
  eligible eid p = true ->
  apply_async_ok env pid = true -> update_ok env pid = false ->
  tasks_of pid (sweeps n eid env d queue).2 = (tasks_of pid queue + n)%nat /\
  photos (sweeps n eid env d queue).1 !! pid = Some p.
Proof.
  revert d queue; induction n as [|n IH]; intros d queue Hp Hel Hok Hup.
  - simpl. split; [lia|exact Hp].
  - cbn [sweeps].
    destruct (sweep_effect eid env d queue pid p Hp) as [HT HP].
    rewrite Hel, Hok in HT, HP. rewrite Hup in HP. simpl in HT, HP.
    destruct (IH _ (broker (auto_retry_failed_photos eid env d queue)) HP Hel Hok Hup)
      as [-> ->].
    rewrite HT. split; [lia|reflexivity].
Qed.

Lemma sweeps_without_update_never_stop_witness :
  let d := Db {[ "p2" := Photo "e1" "b.jpg" Error 0 None None ]} [] ∅ [] in
  let env := RetryEnv (fun _ => true) (fun _ => false) in
  tasks_of "p2" (sweeps 7 "e1" env d []).2 = (tasks_of "p2" [] + 7)%nat /\
  photos (sweeps 7 "e1" env d []).1 !! "p2"
  = Some (Photo "e1" "b.jpg" Error 0 None None).
Proof.
  cbv zeta.
  apply (sweeps_without_update_never_stop 7 "e1" _ _ [] "p2"); reflexivity.
Defined.

Lemma retry_step_broker (eid : string) (env : retry_env) (s : sweep)
    (id : string) (ph : photo) :
  broker (retry_step eid env s (id, ph)) =
    broker s ++
    if bool_decide (MAX_RETRIES <= default 0%nat (retry_count ph))%nat then []
    else if apply_async_ok env id
         then [ScheduledTask id eid
                 (nth (Nat.min (default 0%nat (retry_count ph))
                         (length RETRY_DELAYS - 1)) RETRY_DELAYS 0%Z)]
         else [].
Proof.
  unfold retry_step. destruct (bool_decide _); simpl; [now rewrite app_nil_r|].
  destruct (apply_async_ok env id); simpl; [reflexivity|now rewrite app_nil_r].
Qed.

Lemma retry_loop_new_tasks (eid : string) (env : retry_env)
    (rows : list (string * photo)) (s : sweep) :
  exists new,
    broker (foldl (retry_step eid env) s rows) = broker s ++ new /\
    Forall (fun t => exists ph,
              (task_photo_id t, ph) ∈ rows /\ task_event_id t = eid /\
              (default 0%nat (retry_count ph) < MAX_RETRIES)%nat /\
              countdown t = nth (default 0%nat (retry_count ph)) RETRY_DELAYS 0%Z) new.
Proof.
  revert s; induction rows as [|[id ph] rows IH]; intros s; cbn [foldl].
  - exists []. now rewrite app_nil_r.
  - destruct (IH (retry_step eid env s (id, ph))) as (new & Hb & Hall).
    assert (Forall (fun t => exists ph0,
              (task_photo_id t, ph0) ∈ (id, ph) :: rows /\ task_event_id t = eid /\
              (default 0%nat (retry_count ph0) < MAX_RETRIES)%nat /\
              countdown t = nth (default 0%nat (retry_count ph0)) RETRY_DELAYS 0%Z) new)
      as Hall'.
    { eapply Forall_impl; [exact Hall|]. intros t (ph0 & H1 & H2).
      exists ph0. split; [now right|exact H2]. }
    rewrite Hb, retry_step_broker, <- app_assoc.
    eexists. split; [reflexivity|].
    destruct (bool_decide (MAX_RETRIES <= _)%nat) eqn:Hmax; [exact Hall'|].
    apply bool_decide_eq_false in Hmax.
    destruct (apply_async_ok env id); [|exact Hall'].
    constructor; [|exact Hall'].
    unfold MAX_RETRIES in *.
    exists ph. cbn [task_photo_id task_event_id countdown].
    split; [left|]. split; [reflexivity|]. split; [lia|].
    replace (Nat.min (default 0%nat (retry_count ph)) (length RETRY_DELAYS - 1))
      with (default 0%nat (retry_count ph)) by (unfold RETRY_DELAYS; simpl; lia).
    reflexivity.
Qed.

(** X22. The backoff: every task a sweep hands to the broker is for a
    photo of the event that is in error with fewer than [MAX_RETRIES]
    retries recorded, and its countdown is the delay tier of that count:
    300 s for the first retry, 900 s for the second, 3600 s for the
    third. *)
Theorem auto_retry_backoff (eid : string) (env : retry_env) (d : database)
    (queue : list scheduled_task) :
  exists new,
    broker (auto_retry_failed_photos eid env d queue) = queue ++ new /\
    Forall (fun t => exists p,
              photos d !! task_photo_id t = Some p /\
              status p = Error /\ event_id p = eid /\ task_event_id t = eid /\
              match default 0%nat (retry_count p) with
              | 0%nat => countdown t = 300%Z
              | 1%nat => countdown t = 900%Z
              | 2%nat => countdown t = 3600%Z
              | _ => False
              end) new.
Proof.
  change (auto_retry_failed_photos eid env d queue)
    with (foldl (retry_step eid env) (Sweep d queue [] []) (failed_rows eid d)).
  destruct (retry_loop_new_tasks eid env (failed_rows eid d) (Sweep d queue [] []))
    as (new & Hb & Hall).
  exists new. split; [exact Hb|].
  eapply Forall_impl; [exact Hall|].
  intros t (ph & Hrow & Hev & Hlt & Hcd). apply failed_rows_spec in Hrow as (H1 & H2 & H3).
  exists ph. repeat split; auto.
  unfold MAX_RETRIES in Hlt.
  destruct (default 0%nat (retry_count ph)) as [|[|[|k]]]; simpl in Hcd; auto; lia.
Qed.

End RetryBudget.

(** ** What an upload accepts *)

Section UploadAccepts.

Import Database Photos.





End UploadAccepts.

(** ** The selfie match *)

Section SelfieMatch.

Import Database FaceService Match.









(** *** A run of the route *)




End SelfieMatch.

(** ** Deleting a photo *)

Section PhotoDeletion.

Import Database FaceService Match Deletion.

(** *** The matcher without the embeddings of a photo *)








(** *** What a deletion does to the tables *)

Lemma delete_photo_done (dpf : py_result unit) (pid : string) (d : database)
    (pc : gmap string Z) :
  (delete_photo dpf pid d pc).1 = Returned true ->
  exists p,
    get_photo pid d = Some p /\
    (delete_photo dpf pid d pc).2.1 =
      Db (delete pid (photos d))
         (filter (fun r => row_photo_id r <> pid) (face_embeddings d))
         (if bool_decide (status p = Done)
          then add_to_count (event_id p) (-1) (processed_count d)
          else processed_count d)
         (status_writes d).
Proof.
  unfold delete_photo. destruct (get_photo pid d) as [p|]; [|discriminate].
  destruct dpf; [|discriminate]. intros _. now exists p.
Qed.

Lemma delete_photo_cases (dpf : py_result unit) (pid : string) (d : database)
    (pc : gmap string Z) :
  (delete_photo dpf pid d pc).1 = Returned true \/
  (delete_photo dpf pid d pc).2 = (d, pc).
Proof.
  unfold delete_photo. destruct (get_photo pid d) as [p|]; [|now right].
  destruct dpf; [now left|now right].
Qed.







(** *** [processed_count] and the photos that are done *)

Lemma done_photos_cons (eid : string) (m m' : gmap string photo) (i : string)
    (x : photo) (d d' : database) :
  (i, x) :: map_to_list m ≡ₚ map_to_list m' ->
  photos d = m -> photos d' = m' ->
  done_photos eid d' =
    (done_photos eid d
     + if decide (event_id x = eid /\ status x = Done) then 1 else 0)%Z.
Proof.
  intros Hperm Hd Hd'. unfold done_photos, get_photos_for_event.
  rewrite Hd, Hd', <- Hperm, !filter_cons. simpl.
  destruct (decide (event_id x = eid)) as [He|He].
  - rewrite filter_cons. simpl. destruct (decide (status x = Done)) as [Hs|Hs].
    + destruct (decide _) as [_|Hn]; [|tauto]. simpl length. lia.
    + destruct (decide _) as [Hn|_]; [tauto|]. lia.
  - destruct (decide _) as [Hn|_]; [tauto|]. lia.
Qed.

(** The count after a row was written, new or in the place of [old]. *)
Lemma done_photos_insert (eid i : string) (x : photo) (d d' : database) :
  photos d' = <[i := x]> (photos d) ->
  done_photos eid d' =
    (done_photos eid d
     - match photos d !! i with
       | Some old => if decide (event_id old = eid /\ status old = Done) then 1 else 0
       | None => 0
       end
     + if decide (event_id x = eid /\ status x = Done) then 1 else 0)%Z.
Proof.
  intros Hd'.
  pose (d0 := Db (delete i (photos d)) [] ∅ []).
  rewrite (done_photos_cons eid (delete i (photos d)) (photos d') i x d0 d');
    [|rewrite Hd', <- (insert_delete_eq (photos d));
      symmetry; apply map_to_list_insert, lookup_delete_eq|reflexivity|reflexivity].
  destruct (photos d !! i) as [old|] eqn:Hold.
  - rewrite (done_photos_cons eid (delete i (photos d)) (photos d) i old d0 d);
      [lia|now apply map_to_list_delete|reflexivity|reflexivity].
  - assert (done_photos eid d0 = done_photos eid d) as ->; [|lia].
    unfold done_photos, get_photos_for_event, d0. simpl.
    now rewrite delete_id.
Qed.

Lemma done_photos_delete (eid i : string) (old : photo) (d d' : database) :
  photos d !! i = Some old ->
  photos d' = delete i (photos d) ->
  done_photos eid d' =
    (done_photos eid d
     - if decide (event_id old = eid /\ status old = Done) then 1 else 0)%Z.
Proof.
  intros Hold Hd'.
  rewrite (done_photos_cons eid (delete i (photos d)) (photos d) i old d' d);
    [lia|now apply map_to_list_delete|exact Hd'|reflexivity].
Qed.

Lemma add_to_count_lookup (e eid : string) (k : Z) (m : gmap string Z) :
  default 0%Z (add_to_count e k m !! eid) =
    (default 0%Z (m !! eid) + if decide (e = eid) then k else 0)%Z.
Proof.
  unfold add_to_count. destruct (decide (e = eid)) as [->|Hne].
  - now rewrite lookup_insert_eq.
  - rewrite lookup_insert_ne by exact Hne. lia.
Qed.

Lemma counts_done_photos_update (pid : string) (st : photo_status) (fc : Z)
    (ms : option Z) (d0 d : database) :
  photos d0 = photos d -> processed_count d0 = processed_count d ->
  status <$> get_photo pid d <> Some Done ->
  counts_done_photos d ->
  counts_done_photos (update_photo_status pid st fc ms d0).
Proof.
  intros Hph Hpc Hnot Hinv eid. unfold update_photo_status.
  rewrite Hph, Hpc. unfold get_photo in Hnot.
  destruct (photos d !! pid) as [p|] eqn:Hp.
  2:{ unfold done_photos, get_photos_for_event. rewrite Hph, Hpc. apply Hinv. }
  simpl in Hnot.
  set (p' := Photo (event_id p) (filename p) st fc _ (retry_count p)).
  match goal with |- _ = done_photos eid ?D => set (d' := D) end.
  rewrite (done_photos_insert eid pid p' d d') by reflexivity.
  rewrite Hp, <- (Hinv eid). subst d'. simpl.
  destruct (decide (event_id p = eid /\ status p = Done)) as [[_ Hs]|_];
    [congruence|].
  destruct (decide (st = Done)) as [->|Hst].
  - change (<[event_id p := (default 0 (processed_count d !! event_id p) + 1)%Z]>
              (processed_count d))
      with (add_to_count (event_id p) 1 (processed_count d)).
    rewrite add_to_count_lookup.
    destruct (decide (event_id p = eid)) as [He|He];
      destruct (decide (event_id p = eid /\ Done = Done)) as [Hc|Hc];
      try lia; tauto.
  - destruct (decide (event_id p = eid /\ st = Done)) as [[_ Hc]|_];
      [contradiction|lia].
Qed.

Lemma save_faces_keeps_counts (ok : nat -> bool) (n : nat) (pid eid : string)
    (faces : list face) (d : database) :
  processed_count (save_faces ok n pid eid faces d).1 = processed_count d.
Proof.
  revert n d; induction faces as [|f faces IH]; intros n d; simpl; [reflexivity|].
  destruct (ok n); [|reflexivity]. now rewrite IH.
Qed.

Lemma process_photo_db (pid eid : string) (env : job_env) (w : world) :
  db (Worker.process_photo pid eid env w) = db w \/
  exists d0 st fc ms,
    photos d0 = photos (db w) /\ processed_count d0 = processed_count (db w) /\
    db (Worker.process_photo pid eid env w) = update_photo_status pid st fc ms d0.
Proof.
  unfold Worker.process_photo.
  destruct (get_photo pid (db w)); [right|now left].
  destruct (resolve_image env) as [[path cleanup]|e];
    [|now exists (db w), Error, 0%Z, None].
  destruct (path_exists env); simpl; [|now exists (db w), Error, 0%Z, None].
  destruct (detect_and_encode _ path) as [faces|e];
    [|now exists (db w), Error, 0%Z, None].
  pose proof (save_faces_keeps_photos (save_ok env) 0 pid eid faces (db w)) as [Hph _].
  pose proof (save_faces_keeps_counts (save_ok env) 0 pid eid faces (db w)) as Hpc.
  destruct (save_faces (save_ok env) 0 pid eid faces (db w)) as [d saved].
  simpl in Hph, Hpc. destruct saved.
  - now exists d, Done, (Z.of_nat (length faces)), (Some (elapsed_ms env)).
  - now exists d, Error, 0%Z, None.
Qed.

(** X28. [processed_count] stays the number of the event's photos that
    are done through the creation of a photo, through a job of either
    executor on a photo that is not done yet (a first run, or the retry of
    a failed one), and through the deletion of a photo, done or not. *)
Theorem processed_count_counts_done_photos (d : database) :
  counts_done_photos d ->
  (forall id eid fn,
     get_photo id d = None -> counts_done_photos (create_photo id eid fn d)) /\
  (forall ex pid eid env store,
     status <$> get_photo pid d <> Some Done ->
     counts_done_photos (db (Photos.run_job ex pid eid env (World d store)))) /\
  (forall dpf pid pc, counts_done_photos (delete_photo dpf pid d pc).2.1).
Proof.
  intros Hinv. repeat split.
  - intros id eid fn Hfresh e. unfold get_photo in Hfresh.
    rewrite (done_photos_insert e id (Photo eid fn Pending 0 None None) d)
      by reflexivity.
    rewrite Hfresh. simpl. rewrite (Hinv e).
    destruct (decide _) as [[_ Hc]|_]; [discriminate|lia].
  - intros ex pid eid env store Hnot. rewrite run_job_db_eq.
    destruct (process_photo_db pid eid env (World d store))
      as [->|(d0 & st & fc & ms & Hph & Hpc & ->)]; [exact Hinv|].
    now apply (counts_done_photos_update pid st fc ms d0 d).
  - intros dpf pid pc e.
    destruct (delete_photo_cases dpf pid d pc) as [Hdel|Hno].
    2:{ rewrite Hno. apply Hinv. }
    destruct (delete_photo_done dpf pid d pc Hdel) as (p & Hp & ->).
    rewrite (done_photos_delete e pid p d) by (exact Hp || reflexivity).
    simpl. rewrite <- (Hinv e).
    destruct (bool_decide (status p = Done)) eqn:Hs.
    + apply bool_decide_eq_true in Hs. rewrite add_to_count_lookup.
      destruct (decide (event_id p = e)) as [He|He];
        destruct (decide (event_id p = e /\ status p = Done)) as [Hc|Hc];
        try lia; tauto.
    + apply bool_decide_eq_false in Hs.
      destruct (decide (event_id p = e /\ status p = Done)) as [[_ Hc]|_];
        [contradiction|lia].
Qed.


Lemma counts_done_photos_one_done :
  counts_done_photos
    (Db {[ "p1" := Photo "e1" "a.jpg" Done 1 None None ]}
        [EmbeddingRow "p1" "e1" [1; 0] [0; 0; 10; 10]%Z] {[ "e1" := 1%Z ]} []).
Proof.
  intros eid. unfold done_photos, get_photos_for_event. simpl.
  rewrite map_to_list_singleton, filter_cons, filter_nil. simpl.
  destruct (decide ("e1" = eid)) as [<-|Hne].
  - now rewrite lookup_singleton_eq.
  - now rewrite lookup_singleton_ne.
Qed.

Lemma processed_count_counts_done_photos_witness :
  let d := Db {[ "p1" := Photo "e1" "a.jpg" Done 1 None None ]}
              [EmbeddingRow "p1" "e1" [1; 0] [0; 0; 10; 10]%Z]
              {[ "e1" := 1%Z ]} [] in
  (forall id eid fn,
     get_photo id d = None -> counts_done_photos (create_photo id eid fn d)) /\
  (forall ex pid eid env store,
     status <$> get_photo pid d <> Some Done ->
     counts_done_photos (db (Photos.run_job ex pid eid env (World d store)))) /\
  (forall dpf pid pc, counts_done_photos (delete_photo dpf pid d pc).2.1).
Proof.
  cbv zeta. apply processed_count_counts_done_photos.
  exact counts_done_photos_one_done.
Defined.

(** *** A photo deleted before its job ran *)







End PhotoDeletion.
